(** * neo4jproxy: a shallow embedding of [app.js]

    The proxy forwards JSON requests to a Neo4j database over Bolt and
    turns the driver's results back into JSON.  This development embeds
    the value serializer, the [/query] handler, the CORS origin check and
    the two socket probes, and proves the properties stated about them. *)

From Stdlib Require Import ZArith List String Ascii Bool Lia.
From Stdlib Require Import SpecFloat DecimalString DecimalZ DecimalNat.
Import ListNotations.

#[local] Set Warnings "-register-all".

Local Open Scope string_scope.
Local Open Scope list_scope.
Local Open Scope Z_scope.

(* ================================================================== *)
(** * JavaScript numbers *)
(* ================================================================== *)

(** A JS number is an IEEE-754 binary64 value. *)
Module Number.

Definition prec : Z := 53.
Definition emax : Z := 1024.

Definition number : Type := spec_float.

(** The number denoted by an integer literal or an int32 field: the
    double nearest to [z] (ties to even). *)
Definition of_Z (z : Z) : number := binary_normalize prec emax z 0 false.

Definition mul : number -> number -> number := SFmul prec emax.
Definition add : number -> number -> number := SFadd prec emax.

(** [2^1074 * x] for a finite double [x]: an integer, because no finite
    double has an exponent below [-1074]. *)
Definition scaled (x : number) : Z :=
  match x with
  | S754_finite s m e => cond_Zopp s (Zpos m * 2 ^ (e + 1074))
  | _ => 0
  end.

Definition is_finite (x : number) : bool :=
  match x with
  | S754_zero _ | S754_finite _ _ _ => true
  | _ => false
  end.

(** The integer a double is exactly equal to, when there is one. *)
Definition to_Z (x : number) : option Z :=
  if is_finite x && (scaled x mod 2 ^ 1074 =? 0)
  then Some (scaled x / 2 ^ 1074)
  else None.

(** [m * 2^k] on mantissas. *)
Definition shl (m : positive) (k : nat) : positive := Nat.iter k xO m.

(** [x] is a zero or a normal double of exponent at most [hi], and
    [2^1074 * x = v]. *)
Definition exact (hi : Z) (x : number) (v : Z) : Prop :=
  match x with
  | S754_zero _ => v = 0
  | S754_finite s c ce =>
      Zpos (digits2_pos c) = 53 /\ -1074 <= ce <= hi
      /\ cond_Zopp s (Zpos c * 2 ^ (ce + 1074)) = v
  | _ => False
  end.

(** [ToBoolean] on numbers: [0], [-0] and [NaN] are falsy. *)
Definition truthy (x : number) : bool :=
  match x with
  | S754_zero _ | S754_nan => false
  | _ => true
  end.

End Number.

Abbreviation number := Number.number.

(* ================================================================== *)
(** * The driver's 64-bit Integer *)
(* ================================================================== *)

(** neo4j-driver's [Integer] keeps a signed 64-bit value as two int32
    halves; the methods [serialize] calls are modelled on the value the
    halves denote. *)
Module Int64.

Record Integer : Type := fromBits { low : Z; high : Z }.

Definition TWO_PWR_32_DBL : number := Number.of_Z (2 ^ 32).

(** [low >>> 0] *)
Definition low_unsigned (i : Integer) : Z := low i mod 2 ^ 32.

(** The mathematical integer an [Integer] stands for. *)
Definition value (i : Integer) : Z := high i * 2 ^ 32 + low_unsigned i.

Definition MAX_SAFE_VALUE : Integer := fromBits 0xFFFFFFFF 0x1FFFFF.
Definition MIN_SAFE_VALUE : Integer := fromBits 1 (- 0x200000).

Definition greaterThanOrEqual (a b : Integer) : bool := value b <=? value a.
Definition lessThanOrEqual (a b : Integer) : bool := value a <=? value b.

Definition inSafeRange (i : Integer) : bool :=
  greaterThanOrEqual i MIN_SAFE_VALUE && lessThanOrEqual i MAX_SAFE_VALUE.

(** [this.high * TWO_PWR_32_DBL + (this.low >>> 0)], in double
    arithmetic. *)
Definition toNumber (i : Integer) : number :=
  Number.add (Number.mul (Number.of_Z (high i)) TWO_PWR_32_DBL)
             (Number.of_Z (low_unsigned i)).

(** [toString()] with the default radix 10. *)
Definition toString (i : Integer) : string :=
  NilZero.string_of_int (Z.to_int (value i)).

End Int64.

Abbreviation Integer := Int64.Integer.

(** Reading a decimal numeral back. *)
Definition parse_decimal (s : string) : option Z :=
  option_map Z.of_int (NilZero.int_of_string s).

(* ================================================================== *)
(** * JavaScript strings *)
(* ================================================================== *)

(** A JS string is a sequence of UTF-16 code units.  A [string] here
    holds the UTF-8 form of that text, which is how the source file and
    the environment have it; a surrogate that stands alone is written as
    the three bytes of its code, so that every code unit is a string of
    its own. *)

Definition byte (c : ascii) : N := N_of_ascii c.

Definition bytes (l : list N) : string :=
  fold_right (fun n s => String (ascii_of_N n) s) EmptyString l.

(** The three bytes of a code unit from [U+0800] on. *)
Definition three_bytes (u : N) : string :=
  bytes [224 + u / 4096; 128 + (u / 64) mod 64; 128 + u mod 64]%N.

(** The code units of a string, one string each: a character of one to
    three bytes is one unit, a character of four bytes is a pair of
    surrogates. *)
Fixpoint code_units (s : string) : list string :=
  match s with
  | EmptyString => []
  | String a s1 =>
      if (byte a <? 192)%N then String a EmptyString :: code_units s1
      else
        match s1 with
        | EmptyString => [s]
        | String b s2 =>
            if (byte a <? 224)%N
            then String a (String b EmptyString) :: code_units s2
            else
              match s2 with
              | EmptyString => [s]
              | String c s3 =>
                  if (byte a <? 240)%N
                  then String a (String b (String c EmptyString))
                       :: code_units s3
                  else
                    match s3 with
                    | EmptyString => [s]
                    | String d s4 =>
                        let u := ((byte a mod 8) * 262144
                                  + (byte b mod 64) * 4096
                                  + (byte c mod 64) * 64
                                  + byte d mod 64 - 65536)%N in
                        three_bytes (55296 + u / 1024)
                        :: three_bytes (56320 + u mod 1024)
                        :: code_units s4
                    end
              end
        end
  end.

(* ================================================================== *)
(** * JavaScript values *)
(* ================================================================== *)

(** A thrown [Error]: its [code] property, when it has one, and its
    [message]. *)
Record js_error : Type := mkError { code : option string; message : string }.

(** The values [serialize] and the handlers see.

    An object is its prototype together with the list of its own
    enumerable string-keyed properties, in the order [Object.entries]
    yields them.  [VObj] is an object with the prototype it was created
    with: an object literal, what [JSON.parse] builds, a map the driver
    built, or an instance of a driver class (Node, Relationship, Path,
    the temporal and spatial types), whose class prototype holds
    methods only and none under a name this program reads.  [VHeir] is
    an object whose prototype was replaced through an assignment to
    [__proto__], which is how both [serialize] and the driver's map
    unpacking treat a key of that name: the new prototype is [null], an
    array, or another object of the two kinds.  [VInt] is an instance of
    the driver's [Integer]; an object that inherits from an [Integer]
    instance is left out. *)
Inductive value : Type :=
| VUndefined
| VNull
| VBool (b : bool)
| VNum (x : number)
| VStr (s : string)
| VInt (i : Integer)
| VArr (xs : list value)
| VObj (fields : list (string * value))
| VHeir (proto : prototype) (fields : list (string * value))
with prototype : Type :=
| ProtoNull
| ProtoArr (xs : list value)
| ProtoObj (fields : list (string * value))
| ProtoHeir (proto : prototype) (fields : list (string * value)).

(** The object a prototype is. *)
Definition proto_value (p : prototype) : value :=
  match p with
  | ProtoNull => VNull
  | ProtoArr xs => VArr xs
  | ProtoObj fields => VObj fields
  | ProtoHeir p' fields => VHeir p' fields
  end.

Definition obj (A : Type) : Type := list (string * A).

(** [o[k]] on the own properties. *)
Fixpoint obj_get {A} (o : obj A) (k : string) : option A :=
  match o with
  | [] => None
  | (k', x) :: o' => if String.eqb k' k then Some x else obj_get o' k
  end.

(** [o[k] = x] on the own properties: an existing property keeps its
    place, a new one goes last. *)
Fixpoint obj_set {A} (o : obj A) (k : string) (x : A) : obj A :=
  match o with
  | [] => [(k, x)]
  | (k', y) :: o' =>
      if String.eqb k' k then (k', x) :: o' else (k', y) :: obj_set o' k x
  end.

(** [xs.includes(x)] on strings. *)
Definition includes (xs : list string) (x : string) : bool :=
  existsb (String.eqb x) xs.

Fixpoint distinct (ks : list string) : bool :=
  match ks with
  | [] => true
  | k :: ks' => negb (includes ks' k) && distinct ks'
  end.

(** The own keys of an object filled by assignments [o[k] = x], as the
    driver and [serialize] fill theirs: pairwise distinct, and none is
    [__proto__]. *)
Definition plain_keys (ks : list string) : bool :=
  distinct ks && negb (includes ks "__proto__").

Definition obj_keys {A} (o : obj A) : list string := map fst o.

(** [ToBoolean]. *)
Definition truthy (v : value) : bool :=
  match v with
  | VUndefined | VNull => false
  | VBool b => b
  | VNum x => Number.truthy x
  | VStr s => negb (String.eqb s "")
  | VInt _ | VArr _ | VObj _ | VHeir _ _ => true
  end.

(** [p.name] along the prototype chain from [p] on, for the names the
    program reads ([properties], [__isInteger__], [cypher], [params]),
    none of which an array or [Object.prototype] has. *)
Fixpoint inherited (p : prototype) (name : string) : option value :=
  match p with
  | ProtoNull | ProtoArr _ => None
  | ProtoObj fields => obj_get fields name
  | ProtoHeir p' fields =>
      match obj_get fields name with
      | Some x => Some x
      | None => inherited p' name
      end
  end.

(** [v.name] for those names: an own property first, then the
    prototype chain; [undefined] when neither has it.  Of these names an
    [Integer] has [__isInteger__], which its class prototype sets to
    [true], and the values that are not objects have none. *)
Definition get_prop (v : value) (name : string) : value :=
  match v with
  | VObj fields =>
      match obj_get fields name with Some x => x | None => VUndefined end
  | VHeir p fields =>
      match obj_get fields name with
      | Some x => x
      | None => match inherited p name with Some x => x | None => VUndefined end
      end
  | VInt _ => if String.eqb name "__isInteger__" then VBool true else VUndefined
  | _ => VUndefined
  end.

(** [a || b] *)
Definition js_or (a b : value) : value := if truthy a then a else b.

(** Array indices as property names. *)
Definition index_key (n : nat) : string :=
  NilZero.string_of_uint (Nat.to_uint n).

Definition index_keys (n : nat) : list string := map index_key (seq 0 n).

(** [Object.entries(v)] for a [v] that is neither [undefined] nor
    [null]: the own enumerable properties.  A string has one per code
    unit, an [Integer] its two halves, a number or a boolean none. *)
Definition entries (v : value) : list (string * value) :=
  match v with
  | VObj fields | VHeir _ fields => fields
  | VArr xs => combine (index_keys (List.length xs)) xs
  | VStr s =>
      combine (index_keys (List.length (code_units s)))
              (map VStr (code_units s))
  | VInt i =>
      [("low", VNum (Number.of_Z (Int64.low i)));
       ("high", VNum (Number.of_Z (Int64.high i)))]
  | _ => []
  end.

(* ------------------------------------------------------------------ *)
(** ** Filling an object *)

(** An object under construction. *)
Record object : Type := mkObject {
  prototype_of : option prototype;       (* [None]: the one [{}] gave it *)
  own : obj value
}.

(** [{}] *)
Definition empty_object : object := mkObject None [].

Definition object_value (o : object) : value :=
  match prototype_of o with
  | None => VObj (own o)
  | Some p => VHeir p (own o)
  end.

(** What the setter of [__proto__] accepts: [null] and objects.  Any
    other value is ignored.  (An [Integer] is an object too, but no
    value assigned here is one: [serialize] returns none.) *)
Definition as_prototype (x : value) : option prototype :=
  match x with
  | VNull => Some ProtoNull
  | VArr xs => Some (ProtoArr xs)
  | VObj fields => Some (ProtoObj fields)
  | VHeir p fields => Some (ProtoHeir p fields)
  | _ => None
  end.

(** [out[k] = x] on an object made by [{}].  The name [__proto__]
    reaches the accessor inherited from [Object.prototype], which
    replaces the prototype of [out] or does nothing and makes no own
    property; every other name sets the own property.  (The entries of
    one object have distinct keys, so [__proto__] comes at most once,
    while [out] still has the prototype [{}] gave it.) *)
Definition assign (out : object) (k : string) (x : value) : object :=
  if String.eqb k "__proto__"
  then match as_prototype x with
       | Some p => mkObject (Some p) (own out)
       | None => out
       end
  else mkObject (prototype_of out) (obj_set (own out) k x).

(** [const out = {}; for (const [k, x] of es) out[k] = x; return out]. *)
Definition from_entries (es : list (string * value)) : value :=
  object_value
    (fold_left (fun out kx => assign out (fst kx) (snd kx)) es empty_object).

(* ================================================================== *)
(** * The value serializer *)
(* ================================================================== *)

Section Traverse.
Context {A B : Type}.
Variable f : A -> js_error + B.

(** [xs.map(f)] for an [f] that may throw: the first error ends the
    traversal. *)
Fixpoint try_map (xs : list A) : js_error + list B :=
  match xs with
  | [] => inr []
  | x :: xs' =>
      match f x with
      | inl e => inl e
      | inr y =>
          match try_map xs' with
          | inl e => inl e
          | inr ys => inr (y :: ys)
          end
      end
  end.

End Traverse.

(** One entry [[k, f(val)]]. *)
Definition entry_with (f : value -> js_error + value) (kv : string * value)
  : js_error + (string * value) :=
  match f (snd kv) with
  | inl e => inl e
  | inr x => inr (fst kv, x)
  end.

(** The loop [for (const [k, val] of es) out[k] = f(val)] on a fresh
    [out], followed by [return out]; an error thrown by [f] ends it. *)
Definition collect (f : value -> js_error + value)
                   (es : list (string * value)) : js_error + value :=
  match
    fold_left (fun acc kv =>
                 match acc with
                 | inl e => inl e
                 | inr out =>
                     match f (snd kv) with
                     | inl e => inl e
                     | inr x => inr (assign out (fst kv) x)
                     end
                 end) es (inr empty_object)
  with
  | inl e => inl e
  | inr out => inr (object_value out)
  end.

(** [neo4j.isInt(v)], which is [v?.__isInteger__ === true]: the member
    every [Integer] inherits, but also one any other object may have. *)
Definition isInt (v : value) : bool :=
  match get_prop v "__isInteger__" with
  | VBool true => true
  | _ => false
  end.

(** The [TypeError] of a call [v.inSafeRange()] on a [v] without such a
    method.  No object of [value] but an [Integer] has one: a member of
    that name would be data. *)
Definition not_a_function : js_error :=
  mkError None "v.inSafeRange is not a function".

(** What a walk along own properties finds under [properties]: whether
    the value is truthy, and the object [serialize] would build from its
    entries. *)
Definition find_properties (g : value -> js_error + value)
  : list (string * value) -> option (bool * (js_error + value)) :=
  fix find (l : list (string * value)) :=
    match l with
    | [] => None
    | (k, p) :: l' =>
        if String.eqb k "properties" then Some (truthy p, g p) else find l'
    end.

(** [serialize], by structural recursion.  The entity branch walks the
    own properties and the prototype chain to reach [v.properties], so
    that the recursive calls on the entries of that value are calls on
    subterms; [serialize_unfold] below states the function the way
    [app.js] writes it. *)
Fixpoint serialize (v : value) : js_error + value :=
  match v with
  | VUndefined | VNull => inr VNull
  | VInt i =>
      inr (if Int64.inSafeRange i then VNum (Int64.toNumber i)
           else VStr (Int64.toString i))
  | VArr xs =>
      match try_map serialize xs with
      | inl e => inl e
      | inr ys => inr (VArr ys)
      end
  | VObj fields =>
      if isInt v then inl not_a_function
      else
        match find_properties serialize_entries fields with
        | Some (true, out) => out
        | _ => collect serialize fields
        end
  | VHeir proto fields =>
      if isInt v then inl not_a_function
      else
        match
          match find_properties serialize_entries fields with
          | Some found => Some found
          | None => serialize_inherited proto
          end
        with
        | Some (true, out) => out
        | _ => collect serialize fields
        end
  | VBool _ | VNum _ | VStr _ => inr v
  end
with serialize_entries (p : value) : js_error + value :=
  match p with
  | VObj fields | VHeir _ fields => collect serialize fields
  | VArr xs =>
      match try_map serialize xs with
      | inl e => inl e
      | inr ys => inr (from_entries (combine (index_keys (List.length xs)) ys))
      end
  | VStr _ | VInt _ => inr (from_entries (entries p))
  | _ => inr (from_entries [])
  end
with serialize_inherited (proto : prototype)
  : option (bool * (js_error + value)) :=
  match proto with
  | ProtoNull | ProtoArr _ => None
  | ProtoObj fields => find_properties serialize_entries fields
  | ProtoHeir proto' fields =>
      match find_properties serialize_entries fields with
      | Some found => Some found
      | None => serialize_inherited proto'
      end
  end.

(** The values JSON can carry: [null], booleans, strings, finite
    numbers, arrays of such values and mappings of such values under
    distinct keys. *)
Fixpoint json_safe (v : value) : bool :=
  match v with
  | VNull | VBool _ | VStr _ => true
  | VNum x => Number.is_finite x
  | VArr xs => forallb json_safe xs
  | VObj fields | VHeir _ fields =>
      distinct (obj_keys fields)
      && forallb (fun kv => json_safe (snd kv)) fields
  | VUndefined | VInt _ => false
  end.

(** Every mapping inside [v] is a plain one as far as [serialize] is
    concerned: it has the prototype it was created with, no truthy
    [properties] member, for which [serialize] would take it for a graph
    entity, no [__isInteger__] member that is [true], for which
    [neo4j.isInt] would take it for an [Integer], and no key
    [__proto__], which [serialize] cannot set on its result. *)
Fixpoint plain_data (v : value) : bool :=
  match v with
  | VArr xs => forallb plain_data xs
  | VObj fields =>
      negb (truthy (get_prop v "properties"))
      && negb (isInt v)
      && negb (includes (obj_keys fields) "__proto__")
      && forallb (fun kv => plain_data (snd kv)) fields
  | VHeir _ _ => false
  | _ => true
  end.
(* ================================================================== *)
(** * Errors, driver records and the handler monad *)
(* ================================================================== *)

(** [err.code] as a JS value. *)
Definition code_value (e : js_error) : value :=
  match code e with Some c => VStr c | None => VUndefined end.

Fixpoint join (sep : string) (xs : list string) : string :=
  match xs with
  | [] => ""
  | [x] => x
  | x :: xs' => (x ++ sep ++ join sep xs')%string
  end.

(** neo4j-driver's [Record]: the column names and the row's values. *)
Module Rec.

Record record : Type := mkRecord { keys : list string; _fields : list value }.

(** The driver's [newError(message)], whose code defaults to ['N/A']. *)
Definition newError (msg : string) : js_error := mkError (Some "N/A") msg.

(** The names every object inherits from [Object.prototype]. *)
Definition Object_prototype : list string :=
  ["constructor"; "__defineGetter__"; "__defineSetter__"; "hasOwnProperty";
   "__lookupGetter__"; "__lookupSetter__"; "isPrototypeOf";
   "propertyIsEnumerable"; "toString"; "valueOf"; "__proto__";
   "toLocaleString"].

(** The own properties of the table [_fieldLookup], which the driver
    fills by [lookup[name] = idx] from the first column to the last: of
    two columns with one name the later one is found. *)
Fixpoint field_index (ks : list string) (key : string) : option nat :=
  match ks with
  | [] => None
  | k :: ks' =>
      match field_index ks' key with
      | Some i => Some (S i)
      | None => if String.eqb k key then Some 0%nat else None
      end
  end.

(** What [_fieldLookup[key]] evaluates to: the index of a column, a
    member of [Object.prototype], or [undefined]. *)
Inductive slot : Type :=
| column (index : nat)
| member
| missing.

(** The table is a plain object [{}].  An assignment
    [lookup['__proto__'] = idx] stores nothing, a number being no
    prototype, and reading that name gives [Object.prototype] itself; a
    name that is no column is still found when [Object.prototype] has
    it. *)
Definition _fieldLookup (ks : list string) (key : string) : slot :=
  if String.eqb key "__proto__" then member
  else
    match field_index ks key with
    | Some index => column index
    | None => if includes Object_prototype key then member else missing
    end.

(** [rec.get(key)] for a string key.  An [undefined] lookup throws, and
    so does an index past the last field.  A function or
    [Object.prototype] for an index passes both tests, their comparisons
    with a number being false, and [this._fields[index]] is then
    [undefined]. *)
Definition get (r : record) (key : string) : js_error + value :=
  match _fieldLookup (keys r) key with
  | missing =>
      inl (newError ("This record has no field with key '" ++ key
                     ++ "', available keys are: [" ++ join "," (keys r)
                     ++ "]."))
  | member => inr VUndefined
  | column index =>
      match nth_error (_fields r) index with
      | None =>
          inl (newError ("This record has no field with index '"
                         ++ index_key index
                         ++ "'. Remember that indexes start at `0`, "
                         ++ "and make sure your query returns records in "
                         ++ "the shape you meant it to."))
      | Some x => inr x
      end
  end.

End Rec.

Abbreviation record := Rec.record.

(** What a handler does to the outside: the calls it makes on the
    driver, what it logs, and the responses it sends. *)
Inductive driver_call : Type :=
| Session (database : string)
| Run (cypher params : value)
| Close.

Record response : Type := mkResponse { status : Z; body : value }.

Record world : Type := mkWorld {
  calls : list driver_call;
  console : list js_error;
  sent : list response
}.

Definition world0 : world := mkWorld [] [] [].

(** A computation that may throw: it returns the new world and either
    the thrown error or a result. *)
Definition M (A : Type) : Type := world -> world * (js_error + A).

Definition ret {A} (a : A) : M A := fun w => (w, inr a).

Definition bind {A B} (m : M A) (k : A -> M B) : M B :=
  fun w =>
    let (w', r) := m w in
    match r with
    | inl e => (w', inl e)
    | inr a => k a w'
    end.

Definition throw {A} (e : js_error) : M A := fun w => (w, inl e).

(** A pure computation that may throw, run inside a handler. *)
Definition lift {A} (r : js_error + A) : M A := fun w => (w, r).

Declare Scope handler_scope.
Delimit Scope handler_scope with handler.
Notation "x <- m ;; k" := (bind m (fun x => k))
  (at level 61, m at next level, right associativity) : handler_scope.
Notation "m ;; k" := (bind m (fun _ => k))
  (at level 61, right associativity) : handler_scope.

(** [try { body } catch (err) { handler } finally { final }]: the
    [finally] block runs on every path, and an error it throws replaces
    the outcome of the rest. *)
Definition try_catch_finally {A} (body : M A) (handler : js_error -> M A)
                             (final : M unit) : M A :=
  fun w =>
    let (w1, r1) := body w in
    let (w2, r2) := match r1 with
                    | inl e => handler e w1
                    | inr a => (w1, inr a)
                    end in
    let (w3, r3) := final w2 in
    match r3 with
    | inl e => (w3, inl e)
    | inr _ => (w3, r2)
    end.

Definition log_call (c : driver_call) : M unit :=
  fun w => (mkWorld (calls w ++ [c]) (console w) (sent w), inr tt).

(** [console.error('Neo4j run error:', err)] *)
Definition console_error (e : js_error) : M unit :=
  fun w => (mkWorld (calls w) (console w ++ [e]) (sent w), inr tt).

(** [res.status(st).json(b)]; [res.json(b)] is status 200. *)
Definition res_json (st : Z) (b : value) : M unit :=
  fun w => (mkWorld (calls w) (console w) (sent w ++ [mkResponse st b]), inr tt).

(** [process.env.X || fallback] *)
Definition env_or (x : option string) (fallback : string) : string :=
  match x with
  | Some s => if String.eqb s "" then fallback else s
  | None => fallback
  end.

(* ================================================================== *)
(** * The application *)
(* ================================================================== *)

(** The database behind the driver: what [session.run] answers to a
    query, and whether [session.close] fails. *)
Record database : Type := mkDatabase {
  run_outcome : value -> value -> js_error + list record;
  close_outcome : option js_error
}.

Section App.

(** [process.env] *)
Variable env : string -> option string.
Variable db : database.

Definition NEO4J_DB : string := env_or (env "NEO4J_DB") "neo4j".

(* ---------------------------------------------------------------- *)
(** ** The driver, as the handlers use it *)

(** [driver.session({ database })] *)
Definition driver_session (database : string) : M unit :=
  log_call (Session database).

(** [await session.run(cypher, params)] *)
Definition session_run (cypher params : value) : M (list record) :=
  (log_call (Run cypher params) ;; lift (run_outcome db cypher params))%handler.

(** [await session.close()] *)
Definition session_close : M unit :=
  (log_call Close ;;
   match close_outcome db with
   | Some e => throw e
   | None => ret tt
   end)%handler.

(* ---------------------------------------------------------------- *)
(** ** POST /query *)

(** [result.records.length ? result.records[0].keys : []] *)
Definition columns_of (records : list record) : list string :=
  match records with
  | [] => []
  | r :: _ => Rec.keys r
  end.

(** [columns.map(k => serialize(rec.get(k)))] *)
Definition row_of (columns : list string) (rec : record)
  : js_error + list value :=
  try_map (fun k => match Rec.get rec k with
                    | inl e => inl e
                    | inr x => serialize x
                    end) columns.

(** [result.records.map(rec => ({ row: ... }))] *)
Definition data_of (columns : list string) (records : list record)
  : js_error + list value :=
  try_map (fun rec => match row_of columns rec with
                      | inl e => inl e
                      | inr row => inr (VObj [("row", VArr row)])
                      end) records.

Definition success_body (columns : list string) (data : list value) : value :=
  VObj [("results", VArr [VObj [("columns", VArr (map VStr columns));
                                ("data", VArr data)]]);
        ("errors", VArr [])].

Definition failure_body (err : js_error) : value :=
  VObj [("results", VArr []);
        ("errors", VArr [VObj [("code", js_or (code_value err)
                                              (VStr "QueryError"));
                               ("message", VStr (message err))]])].

Definition missing_cypher_body : value :=
  VObj [("error", VStr "Missing 'cypher' in body.")].

(** The handler of [app.post('/query', ...)], given [req.body]. *)
Definition post_query (req_body : value) : M unit :=
  let cypher := get_prop req_body "cypher" in           (* req.body?.cypher *)
  let params := js_or (get_prop req_body "params") (VObj []) in
  if negb (truthy cypher) then res_json 400 missing_cypher_body
  else
    (driver_session NEO4J_DB ;;
     try_catch_finally
       (records <- session_run cypher params ;;
        let columns := columns_of records in
        data <- lift (data_of columns records) ;;
        res_json 200 (success_body columns data))
       (fun err =>
          console_error err ;;
          res_json 400 (failure_body err))
       session_close)%handler.

(** What the [try] block computes before it answers: the error it
    throws, or the columns and the data of the response. *)
Definition try_outcome (cypher params : value)
  : js_error + (list string * list value) :=
  match run_outcome db cypher params with
  | inl err => inl err
  | inr records =>
      match data_of (columns_of records) records with
      | inl err => inl err
      | inr data => inr (columns_of records, data)
      end
  end.

(* ---------------------------------------------------------------- *)
(** ** The CORS origin check *)

(** The white space and line terminators [String.prototype.trim]
    strips, by the bytes of their UTF-8 form: the six of ASCII, [U+00A0],
    [U+1680], [U+2000] to [U+200A], [U+2028], [U+2029], [U+202F],
    [U+205F], [U+3000] and [U+FEFF]. *)
Definition is_space1 (a : ascii) : bool :=
  match byte a with
  | 9%N | 10%N | 11%N | 12%N | 13%N | 32%N => true
  | _ => false
  end.

Definition is_space2 (a b : ascii) : bool :=
  match byte a, byte b with
  | 194%N, 160%N => true
  | _, _ => false
  end.

Definition is_space3 (a b c : ascii) : bool :=
  match byte a, byte b, byte c with
  | 225%N, 154%N, 128%N => true
  | 226%N, 128%N, n => (128 <=? n)%N && (n <=? 138)%N
                       || (n =? 168)%N || (n =? 169)%N || (n =? 175)%N
  | 226%N, 129%N, 159%N => true
  | 227%N, 128%N, 128%N => true
  | 239%N, 187%N, 191%N => true
  | _, _, _ => false
  end.

(** [s.trimStart()] *)
Fixpoint trim_start (s : string) : string :=
  match s with
  | EmptyString => EmptyString
  | String a s1 =>
      if is_space1 a then trim_start s1
      else
        match s1 with
        | EmptyString => s
        | String b s2 =>
            if is_space2 a b then trim_start s2
            else
              match s2 with
              | EmptyString => s
              | String c s3 => if is_space3 a b c then trim_start s3 else s
              end
        end
  end.

(** Nothing but white space. *)
Definition blank (s : string) : bool := String.eqb (trim_start s) "".

(** [s.trimEnd()] *)
Fixpoint trim_end (s : string) : string :=
  match s with
  | EmptyString => EmptyString
  | String c s' => if blank s then EmptyString else String c (trim_end s')
  end.

(** [s.trim()] *)
Definition trim (s : string) : string := trim_end (trim_start s).

(** [s.split(sep)] for a one-character separator. *)
Fixpoint split (sep : ascii) (s : string) : list string :=
  match s with
  | EmptyString => [EmptyString]
  | String c s' =>
      if Ascii.eqb c sep then EmptyString :: split sep s'
      else match split sep s' with
           | [] => [String c EmptyString]
           | w :: ws => String c w :: ws
           end
  end.

Definition ORIGIN_ALLOW_LIST : list string :=
  filter (fun s => truthy (VStr s))
         (map trim
              (split ","
                 (env_or (env "ORIGIN_ALLOW_LIST")
                    "https://nettedletters.org,https://tool.nettedletters.org"))).

(** [req.headers.origin]: the request header [Origin] as Node hands it
    over, [undefined] when the request has none. *)
Definition origin_value (origin : option string) : value :=
  match origin with Some o => VStr o | None => VUndefined end.

(** The [origin] option given to [cors]: the pair handed to the
    callback [cb(err, allow)]. *)
Definition origin_callback (origin : option string)
  : option js_error * bool :=
  if negb (truthy (origin_value origin))
     || match origin with
        | Some o => includes ORIGIN_ALLOW_LIST o
        | None => false
        end
  then (None, true)
  else (Some (mkError None
                ("Not allowed by CORS: "
                 ++ match origin with Some o => o | None => "undefined" end)),
        false).

(** The [cors] middleware in front of the routes: when the callback
    reports an error, it calls [next(err)] and Express runs no route
    handler; otherwise the request goes on to its handler. *)
Definition through_cors {A} (origin : option string) (handler : M A) : M A :=
  match origin_callback origin with
  | (Some err, _) => throw err
  | (None, _) => handler
  end.

End App.

(* ================================================================== *)
(** * The socket probes *)
(* ================================================================== *)

Module Probe.

Inductive event_name : Type := connect | secureConnect | timeout | error.

Definition event_name_eqb (a b : event_name) : bool :=
  match a, b with
  | connect, connect | secureConnect, secureConnect
  | timeout, timeout | error, error => true
  | _, _ => false
  end.

(** What a listener does: the statements of its body. *)
Inductive stmt : Type :=
| destroy                              (* s.destroy() *)
| json (st : Z) (b : value).           (* res.status(st).json(b) *)

(** A registered listener: [s.once(name, f)] or [s.on(name, f)];
    [f] receives the error message of an ['error'] event. *)
Record listener : Type := mkListener {
  name : event_name;
  once : bool;
  run : string -> list stmt
}.

(** The probe's socket and response object. *)
Record state : Type := mkState {
  destroyed : bool;
  listeners : list listener;
  sent : list response
}.

Definition exec (st : state) (c : stmt) : state :=
  match c with
  | destroy => mkState true (listeners st) (sent st)
  | json code b =>
      mkState (destroyed st) (listeners st) (sent st ++ [mkResponse code b])
  end.

(** [emitter.emit(name, arg)]: the listeners registered for [name]
    run in order; those registered with [once] are removed. *)
Definition emit (n : event_name) (arg : string) (st : state) : state :=
  let fired := filter (fun l => event_name_eqb (name l) n) (listeners st) in
  let kept := filter (fun l => negb (event_name_eqb (name l) n && once l))
                     (listeners st) in
  fold_left (fun s l => fold_left exec (run l arg) s) fired
            (mkState (destroyed st) kept (sent st)).

(** What the network does to a socket that is trying to connect. *)
Inductive net_event : Type :=
| established                 (* the connection (or the handshake) completed *)
| idle                        (* the timeout set on the socket elapsed *)
| failed (msg : string).      (* a connection or handshake error *)

(** Node's socket, as seen by its listeners.  A destroyed socket emits
    none of these events: its timer is cleared and a late connection is
    dropped.  An error reaches the listeners through [destroy(err)], so
    the socket is already destroyed when ['error'] is emitted.  The
    connection and the timeout only notify, and leave the socket open
    until a listener destroys it. *)
Definition deliver (on_established : event_name) (st : state) (e : net_event)
  : state :=
  if destroyed st then st
  else match e with
       | established => emit on_established "" st
       | idle => emit timeout "" st
       | failed msg => emit error msg (mkState true (listeners st) (sent st))
       end.

(** A probe: the event its success listener waits for, and the
    listeners its handler registers. *)
Record probe : Type := mkProbe {
  on_established : event_name;
  registered : list listener
}.

(** The handler of [app.get('/debug/bolt', ...)]. *)
Definition bolt : probe :=
  mkProbe connect
    [ mkListener connect true
        (fun _ => [destroy; json 200 (VObj [("connect", VBool true)])]);
      mkListener timeout true
        (fun _ => [destroy;
                   json 504 (VObj [("connect", VBool false);
                                   ("error", VStr "timeout")])]);
      mkListener error true
        (fun msg => [destroy;
                     json 502 (VObj [("connect", VBool false);
                                     ("error", VStr msg)])]) ].

(** The handler of [app.get('/debug/tls', ...)]; [authorized],
    [alpnProtocol] and [cipher] are what the connected socket reports
    about the handshake. *)
Definition tls (authorized : bool) (alpnProtocol cipher : value) : probe :=
  mkProbe secureConnect
    [ mkListener secureConnect true
        (fun _ =>
           let info := VObj [("authorized", VBool authorized);
                             ("alpnProtocol", js_or alpnProtocol VNull);
                             ("cipher", cipher)] in
           [destroy; json 200 (VObj [("ok", VBool true); ("info", info)])]);
      mkListener error false
        (fun msg => [json 502 (VObj [("ok", VBool false);
                                     ("error", VStr msg)])]);
      mkListener timeout false
        (fun _ => [destroy;
                   json 504 (VObj [("ok", VBool false);
                                   ("error", VStr "timeout")])]) ].

Definition start (p : probe) : state := mkState false (registered p) [].

(** The probe after the network events [evs], in order. *)
Definition after (p : probe) (evs : list net_event) : state :=
  fold_left (deliver (on_established p)) evs (start p).

End Probe.

(* ================================================================== *)
(** * The connectivity endpoints *)
(* ================================================================== *)

(** [try { body } catch (e) { handler }] *)
Definition try_catch {A} (body : M A) (handler : js_error -> M A) : M A :=
  fun w =>
    let (w1, r1) := body w in
    match r1 with
    | inl e => handler e w1
    | inr a => (w1, inr a)
    end.

(** [await driver.verifyConnectivity()], given what the driver finds:
    an error, or nothing to report.  It opens no session. *)
Definition verifyConnectivity (found : option js_error) : M unit :=
  match found with
  | Some e => throw e
  | None => ret tt
  end.

(** The handler of [app.get('/health', ...)]. *)
Definition get_health (found : option js_error) : M unit :=
  try_catch
    (verifyConnectivity found ;;
     res_json 200 (VObj [("ok", VBool true)]))%handler
    (fun e =>
       res_json 502 (VObj [("ok", VBool false); ("error", VStr (message e))])).

(** The handler of [app.get('/debug/driver', ...)]. *)
Definition get_debug_driver (found : option js_error) : M unit :=
  try_catch
    (verifyConnectivity found ;;
     res_json 200 (VObj [("ok", VBool true)]))%handler
    (fun e =>
       res_json 502 (VObj [("ok", VBool false); ("error", VStr (message e))])).

(* ================================================================== *)
(** * Shapes of values *)
(* ================================================================== *)

(** What [JSON.stringify] renders faithfully apart from the numbers:
    no [undefined], no [Integer], and plain keys in every mapping. *)
Fixpoint output_shape (v : value) : bool :=
  match v with
  | VUndefined | VInt _ => false
  | VArr xs => forallb output_shape xs
  | VObj fields | VHeir _ fields =>
      plain_keys (obj_keys fields)
      && forallb (fun kv => output_shape (snd kv)) fields
  | VNull | VBool _ | VNum _ | VStr _ => true
  end.



(** [s.includes(c)] for a character. *)
Fixpoint contains (c : ascii) (s : string) : bool :=
  match s with
  | EmptyString => false
  | String d s' => Ascii.eqb d c || contains c s'
  end.

(* ================================================================== *)
(** * Sample values, requests and databases *)
(* ================================================================== *)

Definition nested_properties : value :=
  VObj [("properties",
         VObj [("properties", VObj [("a", VStr "x")])])].

Definition proto_mapping : value :=
  VObj [("__proto__", VStr "x"); ("a", VNull)].

(** A mapping [neo4j.isInt] takes for an [Integer]. *)
Definition int_like : value := VObj [("__isInteger__", VBool true)].

(** A mapping without a prototype, as [Object.create(null)] or an
    assignment of [null] to [__proto__] leaves it. *)
Definition bare_mapping : value := VHeir ProtoNull [("a", VNull)].

Definition plain_json : value :=
  VObj [("name", VStr "Ann");
        ("tags", VArr [VStr "a"; VNull; VBool true]);
        ("properties", VNull);
        ("pos", VObj [("x", VNum (Number.of_Z 3)); ("y", VNum (Number.of_Z (-4)))])].

Definition a_node : list (string * value) :=
  [("identity", VInt (Int64.fromBits 7 0));
   ("labels", VArr [VStr "Person"]);
   ("properties", VObj [("name", VStr "Ann");
                        ("age", VInt (Int64.fromBits 41 0));
                        ("labels", VArr [])]);
   ("elementId", VStr "4:abc:7")].

Definition no_env : string -> option string := fun _ => None.

Definition two_records : list record :=
  [Rec.mkRecord ["a"; "b"] [VInt (Int64.fromBits 1 0); VStr "x"];
   Rec.mkRecord ["a"; "b"] [VNull; VArr [VInt (Int64.fromBits 2 0)]]].

Definition db_two_records : database :=
  mkDatabase (fun _ _ => inr two_records) None.

Definition db_failing : database :=
  mkDatabase (fun _ _ => inl (mkError (Some "Neo.ClientError.Statement.SyntaxError")
                                      "Invalid input"))
             None.







Definition a_query : value := VObj [("cypher", VStr "MATCH (n) RETURN n")].

Definition two_records_response : response :=
  mkResponse 200
    (VObj [("results",
            VArr [VObj [("columns", VArr [VStr "a"; VStr "b"]);
                        ("data",
                         VArr [VObj [("row", VArr [VNum (Number.of_Z 1); VStr "x"])];
                               VObj [("row", VArr [VNull;
                                                   VArr [VNum (Number.of_Z 2)]])]])]]);
           ("errors", VArr [])]).

(** A configuration that starts with a no-break space, [U+00A0]. *)
Definition env_nbsp (k : string) : option string :=
  if String.eqb k "ORIGIN_ALLOW_LIST"
  then Some (bytes [194; 160]%N ++ "https://a.example , https://b.example,")%string
  else None.



Definition a_path : value :=
  VObj [("start", VObj a_node);
        ("length", VInt (Int64.fromBits 0 0x200000));
        ("segments", VArr [VObj [("properties", VArr [VUndefined; VBool true])];
                           VNum (S754_infinity false)])].

Definition env_blank (k : string) : option string :=
  if String.eqb k "ORIGIN_ALLOW_LIST" then Some " , ," else None.

(* ================================================================== *)
(** * Exact double arithmetic *)
(* ================================================================== *)

Module NumberFacts.
Import Number.

(** ** Mantissas *)

Lemma shl_Z m k : Zpos (shl m k) = Zpos m * 2 ^ Z.of_nat k.
Proof.
induction k as [|k IH].
- simpl. lia.
- rewrite Nat2Z.inj_succ, Z.pow_succ_r by lia.
  change (shl m (S k)) with (xO (shl m k)). rewrite (Pos2Z.inj_xO (shl m k)), IH. ring.
Qed.

Lemma shl_digits m k :
Zpos (digits2_pos (shl m k)) = Zpos (digits2_pos m) + Z.of_nat k.
Proof.
induction k as [|k IH].
- simpl. lia.
- change (shl m (S k)) with (xO (shl m k)). cbn [digits2_pos].
  rewrite Pos2Z.inj_succ, IH. lia.
Qed.

Lemma iter_xO_shl m d : Pos.iter xO m d = shl m (Pos.to_nat d).
Proof. apply Pos2Nat.inj_iter. Qed.

(** A positive of [d] binary digits lies in [[2^(d-1), 2^d)]. *)
Lemma digits2_bounds m :
2 ^ (Zpos (digits2_pos m) - 1) <= Zpos m < 2 ^ Zpos (digits2_pos m).
Proof.
induction m as [m IH|m IH|]; cbn [digits2_pos].
- rewrite Pos2Z.inj_succ, (Pos2Z.inj_xI m).
  replace (Z.succ (Zpos (digits2_pos m)) - 1) with (Z.succ (Zpos (digits2_pos m) - 1)) by lia.
  rewrite !Z.pow_succ_r by lia.
  destruct IH as [IH1 IH2]. revert IH1 IH2.
  generalize (2 ^ (Zpos (digits2_pos m) - 1)) (2 ^ Zpos (digits2_pos m)). lia.
- rewrite Pos2Z.inj_succ, (Pos2Z.inj_xO m).
  replace (Z.succ (Zpos (digits2_pos m)) - 1) with (Z.succ (Zpos (digits2_pos m) - 1)) by lia.
  rewrite !Z.pow_succ_r by lia.
  destruct IH as [IH1 IH2]. revert IH1 IH2.
  generalize (2 ^ (Zpos (digits2_pos m) - 1)) (2 ^ Zpos (digits2_pos m)). lia.
- simpl. lia.
Qed.

Lemma digits2_le m n :
Zpos m < 2 ^ n -> 0 <= n -> Zpos (digits2_pos m) <= n.
Proof.
intros Hm Hn. destruct (Z_le_gt_dec (Zpos (digits2_pos m)) n) as [H|H]; [exact H|].
exfalso. pose proof (digits2_bounds m) as [Hlo _].
assert (2 ^ n <= 2 ^ (Zpos (digits2_pos m) - 1)) by (apply Z.pow_le_mono_r; lia).
lia.
Qed.

(** ** Shifting right *)

Lemma iter_pos_nat {A} (f : A -> A) p x :
iter_pos f p x = Nat.iter (Pos.to_nat p) f x.
Proof.
revert x. induction p as [p IH|p IH|]; intros x; cbn [iter_pos].
- rewrite !IH, Pos2Nat.inj_xI, Nat.iter_succ_r.
  replace (2 * Pos.to_nat p)%nat with (Pos.to_nat p + Pos.to_nat p)%nat by lia.
  now rewrite Nat.iter_add.
- rewrite !IH, Pos2Nat.inj_xO.
  replace (2 * Pos.to_nat p)%nat with (Pos.to_nat p + Pos.to_nat p)%nat by lia.
  now rewrite Nat.iter_add.
- reflexivity.
Qed.

(** Shifting out [k] zero bits loses nothing. *)
Lemma shr_shl c k :
Nat.iter k shr_1 (Build_shr_record (Zpos (shl c k)) false false)
= Build_shr_record (Zpos c) false false.
Proof.
induction k as [|k IH]; [reflexivity|].
rewrite Nat.iter_succ_r. exact IH.
Qed.

(** ** Rounding a representable value *)

Section Exact.
(** A normal double: a 53-bit mantissa [c] with exponent [ce]. *)
Variables (c : positive) (ce : Z).
Hypothesis Hc : Zpos (digits2_pos c) = 53.
Hypothesis Hce : -1074 <= ce <= 971.

Lemma fexp_normal : fexp 53 1024 (53 + ce) = ce.
Proof. unfold fexp, emin. lia. Qed.

Lemma shr_fexp_exact k :
shr_fexp 53 1024 (Zpos (shl c k)) (ce - Z.of_nat k) loc_Exact
= (Build_shr_record (Zpos c) false false, ce).
Proof.
unfold shr_fexp. cbn [Zdigits2 shr_record_of_loc].
rewrite shl_digits, Hc.
replace (53 + Z.of_nat k + (ce - Z.of_nat k)) with (53 + ce) by lia.
rewrite fexp_normal.
replace (ce - (ce - Z.of_nat k)) with (Z.of_nat k) by lia.
destruct k as [|k].
- change (Z.of_nat 0) with 0. unfold shr, shl, Nat.iter, nat_rect.
  f_equal. lia.
- unfold shr. rewrite Nat2Z.inj_succ, <- Zpos_P_of_succ_nat.
  rewrite iter_pos_nat, SuccNat2Pos.id_succ, shr_shl.
  f_equal. lia.
Qed.

(** Rounding [mx * 2^ex] when it equals [c * 2^ce] and carries extra
  low zero bits. *)
Lemma binary_round_aux_exact sx mx ex :
ex <= ce ->
Zpos mx = Zpos c * 2 ^ (ce - ex) ->
binary_round_aux 53 1024 sx (Zpos mx) ex loc_Exact = S754_finite sx c ce.
Proof.
intros Hex Hmx.
assert (Emx : mx = shl c (Z.to_nat (ce - ex))).
{ apply Pos2Z.inj. rewrite shl_Z, Z2Nat.id by lia. exact Hmx. }
remember (Z.to_nat (ce - ex)) as k eqn:Ek.
assert (Eex : ex = ce - Z.of_nat k) by lia.
clear Ek Hmx. subst mx ex. unfold binary_round_aux.
rewrite shr_fexp_exact. cbn [shr_m loc_of_shr_record round_nearest_even].
change (Zpos c) with (Zpos (shl c 0)) at 1.
replace ce with (ce - Z.of_nat 0) at 1 by (simpl; lia).
rewrite shr_fexp_exact. cbn [shr_m].
destruct (Z.leb_spec ce (1024 - 53)); [reflexivity | lia].
Qed.

(** The same for [binary_round], which first pads a short mantissa. *)
Lemma binary_round_exact sx mx ex :
Zpos mx * 2 ^ (ex + 1074) = Zpos c * 2 ^ (ce + 1074) ->
binary_round 53 1024 sx mx ex = S754_finite sx c ce.
Proof.
intros H.
assert (Hex : -1074 <= ex).
{ destruct (Z_lt_ge_dec (ex + 1074) 0) as [Hneg|]; [|lia].
  rewrite (Z.pow_neg_r 2 _ Hneg) in H.
  assert (0 < 2 ^ (ce + 1074)) by (apply Z.pow_pos_nonneg; lia). lia. }
unfold binary_round.
destruct (Z_le_gt_dec ex ce) as [Hle|Hgt].
- (* the mantissa is long enough *)
  assert (Hmx : Zpos mx = Zpos c * 2 ^ (ce - ex)).
  { replace (ce + 1074) with ((ce - ex) + (ex + 1074)) in H by lia.
    rewrite (Z.pow_add_r 2 (ce - ex) (ex + 1074)), Z.mul_assoc in H by lia.
    apply Z.mul_cancel_r in H; [exact H|].
    apply Z.pow_nonzero; lia. }
  assert (Hd : Zpos (digits2_pos mx) = 53 + (ce - ex)).
  { assert (E : mx = shl c (Z.to_nat (ce - ex))).
    { apply Pos2Z.inj. rewrite shl_Z, Z2Nat.id by lia. exact Hmx. }
    rewrite E, shl_digits, Hc, Z2Nat.id by lia. reflexivity. }
  rewrite Hd. replace (53 + (ce - ex) + ex) with (53 + ce) by lia.
  rewrite fexp_normal. unfold shl_align.
  destruct (ce - ex) as [|p|p] eqn:E; try lia;
    apply binary_round_aux_exact; try lia; rewrite E; exact Hmx.
- (* the mantissa is short: pad it *)
  assert (Hcm : Zpos c = Zpos mx * 2 ^ (ex - ce)).
  { replace (ex + 1074) with ((ex - ce) + (ce + 1074)) in H by lia.
    rewrite (Z.pow_add_r 2 (ex - ce) (ce + 1074)), Z.mul_assoc in H by lia.
    apply Z.mul_cancel_r in H; [now symmetry|].
    apply Z.pow_nonzero; lia. }
  assert (E : c = shl mx (Z.to_nat (ex - ce))).
  { apply Pos2Z.inj. rewrite shl_Z, Z2Nat.id by lia. exact Hcm. }
  assert (Hd : Zpos (digits2_pos mx) = 53 - (ex - ce)).
  { pose proof (shl_digits mx (Z.to_nat (ex - ce))) as Hs.
    rewrite <- E, Hc, Z2Nat.id in Hs by lia. lia. }
  rewrite Hd. replace (53 - (ex - ce) + ex) with (53 + ce) by lia.
  rewrite fexp_normal. unfold shl_align.
  destruct (ce - ex) as [|p|p] eqn:Ep; try lia.
  rewrite iter_xO_shl.
  replace (Pos.to_nat p) with (Z.to_nat (ex - ce)) by lia.
  rewrite <- E. apply binary_round_aux_exact; [lia|].
  rewrite Z.sub_diag. simpl. lia.
Qed.

End Exact.

(** ** Doubles that are exactly an integer *)

Lemma exact_weaken hi hi' x v : hi <= hi' -> exact hi x v -> exact hi' x v.
Proof. destruct x; simpl; intuition lia. Qed.

Lemma exact_scaled hi x v :
exact hi x v -> Number.is_finite x = true /\ Number.scaled x = v.
Proof. destruct x; simpl; intuition auto. Qed.

Lemma exact_to_Z hi x n :
exact hi x (n * 2 ^ 1074) -> Number.to_Z x = Some n.
Proof.
intros H. apply exact_scaled in H as [Hf Hs]. unfold Number.to_Z.
assert (Hp : 2 ^ 1074 <> 0) by (apply Z.pow_nonzero; lia).
rewrite Hf, Hs, Z.mod_mul, Z.div_mul by exact Hp. reflexivity.
Qed.

(** Every positive integer below [2^53] is a normal double. *)
Lemma normal_form (q : positive) :
Zpos q < 2 ^ 53 ->
exists c ce,
  Zpos (digits2_pos c) = 53 /\ -52 <= ce <= 0
  /\ Zpos c * 2 ^ (ce + 1074) = Zpos q * 2 ^ 1074.
Proof.
intros Hq. pose proof (digits2_le q 53 Hq ltac:(lia)) as Hd.
set (d := Zpos (digits2_pos q)) in *.
assert (Hd1 : 1 <= d) by (unfold d; lia).
exists (shl q (Z.to_nat (53 - d))), (d - 53).
split; [|split; [lia|]].
- rewrite shl_digits, Z2Nat.id by lia. fold d. lia.
- rewrite shl_Z, Z2Nat.id by lia.
  rewrite <- Z.mul_assoc, <- Z.pow_add_r by lia.
  f_equal. f_equal. lia.
Qed.

Lemma cond_Zopp_mul s m k : cond_Zopp s m * k = cond_Zopp s (m * k).
Proof. destruct s; simpl; lia. Qed.

(** Normalizing [m * 2^e] when it is an integer [n] below [2^53] in
  magnitude yields the double equal to [n]. *)
Lemma binary_normalize_exact m e n :
-1074 <= e ->
m * 2 ^ (e + 1074) = n * 2 ^ 1074 ->
Z.abs n < 2 ^ 53 ->
exact 0 (binary_normalize 53 1024 m e false) (n * 2 ^ 1074).
Proof.
intros He H Hn.
assert (Hp : 0 < 2 ^ 1074) by (apply Z.pow_pos_nonneg; lia).
assert (Hpe : 0 < 2 ^ (e + 1074)) by (apply Z.pow_pos_nonneg; lia).
assert (Hsign : forall p q : positive,
           0 < Zpos p * 2 ^ (e + 1074) /\ 0 < Zpos q * 2 ^ 1074).
{ intros p q. split; apply Z.mul_pos_pos; lia. }
destruct m as [|p|p], n as [|q|q]; cbn [binary_normalize];
  try (exfalso; destruct (Hsign p q); change (Z.neg p) with (- Zpos p) in H;
       change (Z.neg q) with (- Zpos q) in H; lia);
  try (exfalso; destruct (Hsign 1%positive q);
       change (Z.neg q) with (- Zpos q) in H; lia);
  try (exfalso; destruct (Hsign p 1%positive);
       change (Z.neg p) with (- Zpos p) in H; lia).
- reflexivity.
- destruct (normal_form q ltac:(lia)) as (c & ce & Hc & Hce & Hv).
  rewrite (binary_round_exact c ce Hc ltac:(lia)) by congruence.
  simpl. repeat split; try lia. exact Hv.
- destruct (normal_form q ltac:(lia)) as (c & ce & Hc & Hce & Hv).
  change (Z.neg p) with (- Zpos p) in H.
  change (Z.neg q) with (- Zpos q) in H |- *.
  rewrite (binary_round_exact c ce Hc ltac:(lia)) by (rewrite Hv; lia).
  cbn [exact cond_Zopp]. repeat split; lia.
Qed.

Lemma of_Z_exact z :
Z.abs z < 2 ^ 53 -> exact 0 (Number.of_Z z) (z * 2 ^ 1074).
Proof. intros Hz. apply binary_normalize_exact; [lia | reflexivity | exact Hz]. Qed.


(** Multiplying by [2^32] only moves the exponent. *)
Lemma mul_two_pwr_32_exact x h :
exact 0 x (h * 2 ^ 1074) ->
exact 32 (Number.mul x Int64.TWO_PWR_32_DBL) (h * 2 ^ 32 * 2 ^ 1074).
Proof.
assert (Hp : 0 < 2 ^ 1074) by (apply Z.pow_pos_nonneg; lia).
change Int64.TWO_PWR_32_DBL with (S754_finite false 4503599627370496 (-20)).
destruct x as [s|s| |s c ce]; cbn [exact Number.mul SFmul]; try tauto.
- intros H. assert (h = 0) by lia. subst h. reflexivity.
- intros (Hc & Hce & Hv).
  rewrite (binary_round_aux_exact c (ce + 32) Hc ltac:(lia)).
  + cbn [exact]. repeat split; try lia.
    replace (h * 2 ^ 32 * 2 ^ 1074) with (h * 2 ^ 1074 * 2 ^ 32) by ring.
    rewrite <- Hv, cond_Zopp_mul, xorb_false_r. f_equal.
    replace (ce + 32 + 1074) with ((ce + 1074) + 32) by lia.
    rewrite (Z.pow_add_r 2 (ce + 1074)) by lia. ring.
  + lia.
  + replace (ce + 32 - (ce + -20)) with 52 by lia.
    rewrite Pos2Z.inj_mul. reflexivity.
Qed.

Lemma shl_align_value mx ex ez :
-1074 <= ez -> ez <= ex ->
Zpos (fst (shl_align mx ex ez)) * 2 ^ (ez + 1074) = Zpos mx * 2 ^ (ex + 1074).
Proof.
intros Hz Hle. unfold shl_align.
destruct (ez - ex) as [|p|p] eqn:E; try lia; cbn [fst].
- replace ex with ez by lia. reflexivity.
- rewrite iter_xO_shl, shl_Z, positive_nat_Z.
  replace (ex + 1074) with (Zpos p + (ez + 1074)) by lia.
  rewrite (Z.pow_add_r 2 (Zpos p)) by lia. ring.
Qed.

(** Adding two such doubles whose sum is an integer below [2^53] in
  magnitude is exact. *)
Lemma add_exact x y a b n :
exact 971 x a -> exact 971 y b ->
a + b = n * 2 ^ 1074 ->
Z.abs n < 2 ^ 53 ->
exact 971 (Number.add x y) (n * 2 ^ 1074).
Proof.
assert (Hp : 0 < 2 ^ 1074) by (apply Z.pow_pos_nonneg; lia).
intros Hx Hy Hsum Hn.
destruct x as [sx|sx| |sx mx ex], y as [sy|sy| |sy my ey];
  cbn [exact] in Hx, Hy; try tauto; cbn [Number.add SFadd].
- subst a b. assert (n = 0) by lia. subst n.
  destruct sx, sy; reflexivity.
- subst a. rewrite <- Hsum. exact Hy.
- subst b. rewrite <- Hsum, Z.add_0_r. exact Hx.
- destruct Hx as (Hcx & Hex & Hvx), Hy as (Hcy & Hey & Hvy).
  apply (exact_weaken 0); [lia|].
  apply binary_normalize_exact; [lia | | exact Hn].
  rewrite Z.mul_add_distr_r, !cond_Zopp_mul.
  rewrite !shl_align_value by lia. now rewrite Hvx, Hvy.
Qed.

(** An [Integer] in the safe range converts to the double equal to it. *)
Lemma toNumber_exact i :
Int64.inSafeRange i = true ->
Number.to_Z (Int64.toNumber i) = Some (Int64.value i).
Proof.
unfold Int64.inSafeRange, Int64.greaterThanOrEqual, Int64.lessThanOrEqual.
intros H. apply andb_true_iff in H as [Hlo Hhi].
apply Z.leb_le in Hlo, Hhi.
change (Int64.value Int64.MIN_SAFE_VALUE) with (- (2 ^ 53 - 1)) in Hlo.
change (Int64.value Int64.MAX_SAFE_VALUE) with (2 ^ 53 - 1) in Hhi.
unfold Int64.value in *.
pose proof (Z.mod_pos_bound (Int64.low i) (2 ^ 32) ltac:(lia)) as Hl.
fold (Int64.low_unsigned i) in Hl.
change (2 ^ 32) with 4294967296 in *.
change (2 ^ 53) with 9007199254740992 in *.
apply (exact_to_Z 971). unfold Int64.toNumber.
eapply add_exact.
- apply (exact_weaken 32); [lia|].
  apply mul_two_pwr_32_exact, of_Z_exact.
  change (2 ^ 53) with 9007199254740992. lia.
- apply (exact_weaken 0); [lia|]. apply of_Z_exact.
  change (2 ^ 53) with 9007199254740992. lia.
- change (2 ^ 32) with 4294967296. ring.
- change (2 ^ 53) with 9007199254740992. lia.
Qed.

End NumberFacts.

(* ------------------------------------------------------------------ *)
(** ** Objects as association lists *)

Section Objects.
Context {A : Type}.

Lemma obj_set_fresh (o : obj A) k x :
  includes (obj_keys o) k = false ->
  obj_set o k x = o ++ [(k, x)].
Proof.
  induction o as [|[k' y] o IH]; simpl; intros H; [reflexivity|].
  apply orb_false_iff in H as [Hk Ho].
  rewrite String.eqb_sym, Hk. now rewrite IH.
Qed.

Lemma includes_snoc (o : obj A) k k' x :
  includes (obj_keys (o ++ [(k', x)])) k
  = includes (obj_keys o) k || String.eqb k k'.
Proof.
  unfold includes, obj_keys. rewrite map_app, existsb_app. simpl.
  now rewrite orb_false_r.
Qed.

End Objects.

(** Filling an object from entries whose keys are plain and not yet in
    it appends the entries in order and leaves the prototype alone. *)
Lemma fold_assign_plain (es : list (string * value)) :
  forall acc : object,
    distinct (map fst es) = true ->
    includes (map fst es) "__proto__" = false ->
    forallb (fun k => negb (includes (obj_keys (own acc)) k)) (map fst es) = true ->
    fold_left (fun out kx => assign out (fst kx) (snd kx)) es acc
    = mkObject (prototype_of acc) (own acc ++ es).
Proof.
  induction es as [|[k x] es IH]; intros acc Hd Hp Hf;
    cbn [map fst snd fold_left].
  - rewrite app_nil_r. now destruct acc.
  - cbn [map fst distinct forallb] in Hd, Hf.
    unfold includes in Hp. cbn [map fst existsb] in Hp.
    fold (includes (map fst es) "__proto__") in Hp.
    apply andb_true_iff in Hd as [Hk Hd].
    apply andb_true_iff in Hf as [Hka Hf].
    apply orb_false_iff in Hp as [Hpk Hp].
    apply negb_true_iff in Hk, Hka.
    unfold assign. rewrite String.eqb_sym, Hpk.
    rewrite obj_set_fresh by assumption.
    rewrite IH; cbn [prototype_of own];
      [now rewrite <- app_assoc | assumption | assumption |].
    apply forallb_forall. intros k' Hin.
    rewrite includes_snoc.
    rewrite forallb_forall in Hf. specialize (Hf _ Hin).
    apply negb_true_iff in Hf. rewrite Hf. simpl.
    apply negb_true_iff. destruct (String.eqb_spec k' k) as [->|]; [|reflexivity].
    exfalso. apply not_true_iff_false in Hk. apply Hk.
    apply existsb_exists. exists k. split; [assumption | apply String.eqb_refl].
Qed.

Lemma from_entries_plain (es : list (string * value)) :
  plain_keys (obj_keys es) = true -> from_entries es = VObj es.
Proof.
  intros H. apply andb_true_iff in H as [Hd Hp]. apply negb_true_iff in Hp.
  unfold from_entries.
  rewrite fold_assign_plain; [reflexivity | assumption | assumption |].
  apply forallb_forall. reflexivity.
Qed.

(* ------------------------------------------------------------------ *)
(** ** Traversals that may throw *)

Lemma try_map_inr {A B} (f : A -> js_error + B) xs ys :
  try_map f xs = inr ys <-> Forall2 (fun x y => f x = inr y) xs ys.
Proof.
  revert ys. induction xs as [|x xs IH]; simpl; intros ys.
  - split.
    + intros H. injection H as <-. constructor.
    + intros H. inversion H. reflexivity.
  - split.
    + intros H. destruct (f x) as [e|y] eqn:Hx; [discriminate|].
      destruct (try_map f xs) as [e|ys'] eqn:Hxs; [discriminate|].
      injection H as <-. constructor; [exact Hx | now apply IH].
    + intros H. inversion H as [|? y ? ys' Hx Hxs]; subst.
      rewrite Hx. apply IH in Hxs. now rewrite Hxs.
Qed.


Lemma Forall2_same_length {A B} (R : A -> B -> Prop) xs ys :
  Forall2 R xs ys -> List.length ys = List.length xs.
Proof. induction 1; simpl; congruence. Qed.

Lemma collect_loop f es :
  forall acc : js_error + object,
    fold_left (fun acc kv =>
                 match acc with
                 | inl e => inl e
                 | inr out =>
                     match f (snd kv) with
                     | inl e => inl e
                     | inr x => inr (assign out (fst kv) x)
                     end
                 end) es acc
    = match acc with
      | inl e => inl e
      | inr out =>
          match try_map (entry_with f) es with
          | inl e => inl e
          | inr kxs =>
              inr (fold_left (fun out kx => assign out (fst kx) (snd kx)) kxs out)
          end
      end.
Proof.
  induction es as [|kv es IH]; intros acc; cbn [fold_left].
  - destruct acc; reflexivity.
  - rewrite IH. destruct acc as [e|out]; [reflexivity|].
    cbn [try_map]. unfold entry_with at 2.
    destruct (f (snd kv)) as [e|x]; [reflexivity|].
    destruct (try_map (entry_with f) es); reflexivity.
Qed.

(** The loop of [collect] is a traversal of the entries followed by the
    assignments. *)
Lemma collect_try_map f es :
  collect f es
  = match try_map (entry_with f) es with
    | inl e => inl e
    | inr kxs => inr (from_entries kxs)
    end.
Proof.
  unfold collect. rewrite collect_loop.
  destruct (try_map (entry_with f) es); reflexivity.
Qed.

Lemma try_map_entries_combine f ks :
  forall xs,
    try_map (entry_with f) (combine ks xs)
    = match try_map f (firstn (List.length ks) xs) with
      | inl e => inl e
      | inr ys => inr (combine ks ys)
      end.
Proof.
  induction ks as [|k ks IH]; intros [|x xs]; try reflexivity.
  cbn [combine try_map List.length firstn]. unfold entry_with at 1.
  cbn [fst snd]. destruct (f x); [reflexivity|]. rewrite IH.
  now destruct (try_map f (firstn (List.length ks) xs)).
Qed.

Lemma length_index_keys n : List.length (index_keys n) = n.
Proof. unfold index_keys. now rewrite length_map, length_seq. Qed.

(* ------------------------------------------------------------------ *)
(** ** [serialize] as the source writes it *)

Lemma Forall_combine_snd {A B} (P : B -> Prop) (ks : list A) :
  forall xs, Forall P xs -> Forall (fun kv => P (snd kv)) (combine ks xs).
Proof.
  induction ks as [|k ks IH]; intros [|x xs] H; simpl; constructor;
    inversion H; subst; auto.
Qed.

Lemma try_map_fixed (es : list (string * value)) :
  Forall (fun kv => serialize (snd kv) = inr (snd kv)) es ->
  try_map (entry_with serialize) es = inr es.
Proof.
  induction 1 as [|[k x] es Hx _ IH]; [reflexivity|].
  cbn [try_map]. unfold entry_with at 1. cbn [fst snd] in *.
  now rewrite Hx, IH.
Qed.

Lemma serialize_entries_collect p :
  serialize_entries p = collect serialize (entries p).
Proof.
  destruct p as [| | b | x | s | i | xs | fields | proto fields];
    try reflexivity.
  - (* a string: its entries are strings *)
    cbn [serialize_entries]. rewrite collect_try_map, try_map_fixed; [reflexivity|].
    apply (Forall_combine_snd (fun x => serialize x = inr x)), Forall_forall.
    intros x Hx. apply in_map_iff in Hx as [c [<- _]]. reflexivity.
  - (* an array *)
    cbn [serialize_entries entries].
    rewrite collect_try_map, try_map_entries_combine, length_index_keys.
    rewrite firstn_all. now destruct (try_map serialize xs).
Qed.

Lemma find_properties_get g l :
  find_properties g l
  = option_map (fun p => (truthy p, g p)) (obj_get l "properties").
Proof.
  induction l as [|[k p] l IH]; [reflexivity|]. cbn [find_properties obj_get].
  destruct (String.eqb k "properties"); [reflexivity | apply IH].
Qed.

Lemma serialize_inherited_get p :
  serialize_inherited p
  = option_map (fun x => (truthy x, serialize_entries x))
               (inherited p "properties").
Proof.
  induction p as [|xs|fields|p IH fields]; cbn [serialize_inherited inherited];
    try reflexivity.
  - apply find_properties_get.
  - rewrite find_properties_get.
    destruct (obj_get fields "properties"); [reflexivity | exact IH].
Qed.

(** The body of [serialize] in [app.js], line by line. *)
Lemma serialize_unfold v :
  serialize v =
  match v with
  | VUndefined | VNull => inr VNull                 (* v == null *)
  | VInt i =>                                       (* neo4j.isInt(v) *)
      inr (if Int64.inSafeRange i then VNum (Int64.toNumber i)
           else VStr (Int64.toString i))
  | VArr xs =>                                      (* Array.isArray(v) *)
      match try_map serialize xs with
      | inl e => inl e
      | inr ys => inr (VArr ys)
      end
  | VObj _ | VHeir _ _ =>                           (* typeof v === 'object' *)
      if isInt v then inl not_a_function            (* v.inSafeRange() *)
      else if truthy (get_prop v "properties")
      then collect serialize (entries (get_prop v "properties"))
      else collect serialize (entries v)
  | VBool _ | VNum _ | VStr _ => inr v
  end.
Proof.
  destruct v; try reflexivity.
  - cbn [serialize]. destruct (isInt (VObj fields)); [reflexivity|].
    rewrite find_properties_get. unfold get_prop.
    destruct (obj_get fields "properties") as [p|]; cbn [option_map];
      [|reflexivity].
    rewrite serialize_entries_collect. destruct (truthy p); reflexivity.
  - cbn [serialize]. destruct (isInt (VHeir proto fields)); [reflexivity|].
    rewrite find_properties_get, serialize_inherited_get. unfold get_prop.
    destruct (obj_get fields "properties") as [p|]; cbn [option_map].
    + rewrite serialize_entries_collect. destruct (truthy p); reflexivity.
    + destruct (inherited proto "properties") as [p|]; cbn [option_map];
        [|reflexivity].
      rewrite serialize_entries_collect. destruct (truthy p); reflexivity.
Qed.

(* ------------------------------------------------------------------ *)
(** ** Induction on values *)

Lemma value_ind' (P : value -> Prop) :
  P VUndefined -> P VNull ->
  (forall b, P (VBool b)) -> (forall x, P (VNum x)) ->
  (forall s, P (VStr s)) -> (forall i, P (VInt i)) ->
  (forall xs, Forall P xs -> P (VArr xs)) ->
  (forall fields, Forall (fun kv => P (snd kv)) fields -> P (VObj fields)) ->
  (forall p fields,
      P (proto_value p) -> Forall (fun kv => P (snd kv)) fields ->
      P (VHeir p fields)) ->
  forall v, P v.
Proof.
  intros Hu Hn Hb Hx Hs Hi Ha Ho Hh.
  fix IH 1 with (IHp (p : prototype) {struct p} : P (proto_value p)).
  - intros [| | b | x | s | i | xs | fields | p fields];
      [exact Hu | exact Hn | apply Hb | apply Hx | apply Hs | apply Hi | | | ].
    + apply Ha. induction xs as [|x xs IHxs]; constructor; [apply IH | exact IHxs].
    + apply Ho. induction fields as [|[k x] fs IHfs]; constructor;
        [apply IH | exact IHfs].
    + apply Hh; [apply IHp|].
      induction fields as [|[k x] fs IHfs]; constructor; [apply IH | exact IHfs].
  - destruct p as [|xs|fields|p fields]; cbn [proto_value].
    + exact Hn.
    + apply Ha. induction xs as [|x xs IHxs]; constructor; [apply IH | exact IHxs].
    + apply Ho. induction fields as [|[k x] fs IHfs]; constructor;
        [apply IH | exact IHfs].
    + apply Hh; [apply IHp|].
      induction fields as [|[k x] fs IHfs]; constructor; [apply IH | exact IHfs].
Qed.

(* ------------------------------------------------------------------ *)
(** ** What an object is filled with *)

Lemma includes_cons ks k k' :
  includes (k' :: ks) k = String.eqb k k' || includes ks k.
Proof. reflexivity. Qed.

Lemma includes_app ks ks' k :
  includes (ks ++ ks') k = includes ks k || includes ks' k.
Proof. unfold includes. apply existsb_app. Qed.

Lemma obj_set_keys {A} (o : obj A) k x :
  obj_keys (obj_set o k x)
  = if includes (obj_keys o) k then obj_keys o else obj_keys o ++ [k].
Proof.
  induction o as [|[k' y] o IH]; [reflexivity|].
  cbn [obj_set obj_keys map fst]. rewrite includes_cons, (String.eqb_sym k k').
  destruct (String.eqb k' k); [reflexivity|].
  cbn [obj_keys map fst orb]. fold (obj_keys (obj_set o k x)). rewrite IH.
  fold (obj_keys o). destruct (includes (obj_keys o) k); reflexivity.
Qed.

Lemma distinct_snoc ks k :
  distinct ks = true -> includes ks k = false -> distinct (ks ++ [k]) = true.
Proof.
  induction ks as [|a ks IH]; [reflexivity|].
  cbn [distinct app]. rewrite includes_cons. intros Hd Hk.
  apply andb_true_iff in Hd as [Ha Hd]. apply orb_false_iff in Hk as [Hka Hk].
  rewrite includes_app, (IH Hd Hk). apply negb_true_iff in Ha. rewrite Ha.
  unfold includes at 1. cbn [existsb]. now rewrite String.eqb_sym, Hka.
Qed.

Lemma obj_set_values {A} (P : A -> Prop) (o : obj A) k x :
  Forall (fun kv => P (snd kv)) o -> P x ->
  Forall (fun kv => P (snd kv)) (obj_set o k x).
Proof.
  intros Ho Hx. induction Ho as [|[k' y] o Hy Ho IH]; cbn [obj_set].
  - now repeat constructor.
  - destruct (String.eqb k' k); constructor; auto.
Qed.

(** An assignment keeps the own keys plain. *)
Lemma assign_plain out k x :
  plain_keys (obj_keys (own out)) = true ->
  plain_keys (obj_keys (own (assign out k x))) = true.
Proof.
  intros H. unfold assign.
  destruct (String.eqb k "__proto__") eqn:Hk;
    [destruct (as_prototype x); exact H|].
  cbn [own].
  apply andb_true_iff in H as [Hd Hp]. apply negb_true_iff in Hp.
  rewrite obj_set_keys. destruct (includes (obj_keys (own out)) k) eqn:Hin.
  - unfold plain_keys. now rewrite Hd, Hp.
  - unfold plain_keys. rewrite (distinct_snoc _ _ Hd Hin), includes_app, Hp.
    unfold includes. cbn [existsb]. now rewrite String.eqb_sym, Hk.
Qed.

Lemma assign_values (P : value -> Prop) out k x :
  Forall (fun kv => P (snd kv)) (own out) -> P x ->
  Forall (fun kv => P (snd kv)) (own (assign out k x)).
Proof.
  intros Ho Hx. unfold assign. destruct (String.eqb k "__proto__").
  - destruct (as_prototype x); exact Ho.
  - now apply obj_set_values.
Qed.

(** Filling an object by assignments: the own keys stay plain, and what
    holds of every value assigned holds of every own value. *)
Lemma fold_assign_invariant (P : value -> Prop) (es : list (string * value)) :
  forall acc : object,
    plain_keys (obj_keys (own acc)) = true ->
    Forall (fun kv => P (snd kv)) (own acc) ->
    Forall (fun kv => P (snd kv)) es ->
    let out := fold_left (fun out kx => assign out (fst kx) (snd kx)) es acc in
    plain_keys (obj_keys (own out)) = true
    /\ Forall (fun kv => P (snd kv)) (own out).
Proof.
  induction es as [|[k b] es IH]; intros acc Hk Hacc Hes; cbn [fold_left].
  - split; assumption.
  - inversion Hes as [|? ? Hb Hes']; subst. apply IH.
    + now apply assign_plain.
    + now apply assign_values.
    + exact Hes'.
Qed.

(** The object [from_entries] returns: its own keys are plain, and its
    own values are among the values of the entries. *)
Lemma from_entries_invariant (P : value -> Prop) es :
  Forall (fun kv => P (snd kv)) es ->
  exists out,
    from_entries es = object_value out
    /\ plain_keys (obj_keys (own out)) = true
    /\ Forall (fun kv => P (snd kv)) (own out).
Proof.
  intros H. eexists. split; [reflexivity|].
  apply fold_assign_invariant; [reflexivity | constructor | exact H].
Qed.

Lemma forallb_Forall {A} (p : A -> bool) xs :
  forallb p xs = true <-> Forall (fun x => p x = true) xs.
Proof. rewrite forallb_forall, Forall_forall. reflexivity. Qed.

Lemma get_prop_inherited p name :
  match inherited p name with Some x => x | None => VUndefined end
  = get_prop (proto_value p) name.
Proof.
  destruct p as [|xs|fields|p fields]; try reflexivity.
  cbn [inherited proto_value get_prop].
  destruct (obj_get fields name); reflexivity.
Qed.

(** The value found under [properties] is an own value of the object or
    is found in its prototype. *)
Lemma get_prop_cases v :
  get_prop v "properties" = VUndefined
  \/ (exists k, In (k, get_prop v "properties") (entries v)
                /\ match v with VObj _ | VHeir _ _ => True | _ => False end)
  \/ (exists p fields,
         v = VHeir p fields
         /\ get_prop v "properties" = get_prop (proto_value p) "properties").
Proof.
  assert (Hown : forall (fields : list (string * value)) x,
             obj_get fields "properties" = Some x -> exists k, In (k, x) fields).
  { induction fields as [|[k y] fields IH]; cbn [obj_get]; [discriminate|].
    intros x. destruct (String.eqb k "properties").
    - intros E. injection E as <-. exists k. now left.
    - intros E. destruct (IH _ E) as [k' Hin]. exists k'. now right. }
  destruct v as [| | b | x | s | i | xs | fields | p fields]; auto.
  - cbn [get_prop]. destruct (obj_get fields "properties") as [x|] eqn:E;
      [|now left].
    right. left. destruct (Hown _ _ E) as [k Hin]. exists k. now split.
  - cbn [get_prop]. destruct (obj_get fields "properties") as [x|] eqn:E.
    + right. left. destruct (Hown _ _ E) as [k Hin]. exists k. now split.
    + right. right. exists p, fields. split; [reflexivity|].
      apply get_prop_inherited.
Qed.

(* ------------------------------------------------------------------ *)
(** ** Invariants of [serialize] *)

(** A property [P] of results that holds of the primitive results and is
    kept by arrays and by filled objects holds of every result of
    [serialize], on the inputs [I] that is closed under taking parts;
    and a property [E] of the one error [serialize] throws itself holds
    of every error that leaves it. *)
Section Invariant.

Variables I P : value -> Prop.
Variable E : js_error -> Prop.

Hypothesis I_arr : forall xs, I (VArr xs) -> Forall I xs.
Hypothesis I_obj :
  forall fields, I (VObj fields) -> Forall (fun kv => I (snd kv)) fields.
Hypothesis I_heir :
  forall p fields,
    I (VHeir p fields) ->
    I (proto_value p) /\ Forall (fun kv => I (snd kv)) fields.

Hypothesis E_call : E not_a_function.
Hypothesis P_null : P VNull.
Hypothesis P_bool : forall b, P (VBool b).
Hypothesis P_num : forall x, I (VNum x) -> P (VNum x).
Hypothesis P_str : forall s, P (VStr s).
Hypothesis P_int :
  forall i, I (VInt i) ->
            P (if Int64.inSafeRange i then VNum (Int64.toNumber i)
               else VStr (Int64.toString i))
            /\ P (VNum (Number.of_Z (Int64.low i)))
            /\ P (VNum (Number.of_Z (Int64.high i))).
Hypothesis P_arr : forall ys, Forall P ys -> P (VArr ys).
Hypothesis P_obj :
  forall out, plain_keys (obj_keys (own out)) = true ->
              Forall (fun kv => P (snd kv)) (own out) ->
              P (object_value out).

Let outcome (r : js_error + value) : Prop :=
  match r with
  | inl e => E e
  | inr out => P out
  end.

Let parts (v : value) : Prop :=
  Forall (fun kv => outcome (serialize (snd kv))) (entries v).

Lemma try_map_outcome {A B} (f : A -> js_error + B) (Q : B -> Prop) xs :
  Forall (fun x => match f x with inl e => E e | inr y => Q y end) xs ->
  match try_map f xs with
  | inl e => E e
  | inr ys => Forall Q ys
  end.
Proof.
  induction 1 as [|x xs Hx _ IH]; cbn [try_map]; [constructor|].
  destruct (f x) as [e|y]; [exact Hx|].
  destruct (try_map f xs) as [e|ys]; [exact IH | now constructor].
Qed.

Lemma collect_outcome es :
  Forall (fun kv => outcome (serialize (snd kv))) es ->
  outcome (collect serialize es).
Proof.
  intros Hes. rewrite collect_try_map.
  assert (H : match try_map (entry_with serialize) es with
              | inl e => E e
              | inr kxs => Forall (fun kx => P (snd kx)) kxs
              end).
  { apply try_map_outcome. eapply Forall_impl; [|exact Hes]. intros kv Hkv.
    unfold entry_with, outcome in *.
    destruct (serialize (snd kv)); exact Hkv. }
  destruct (try_map (entry_with serialize) es) as [e|kxs]; [exact H|].
  destruct (from_entries_invariant P kxs H) as (o & -> & Hk & Hv).
  now apply P_obj.
Qed.

Lemma object_outcome v :
  parts v -> parts (get_prop v "properties") ->
  match v with VObj _ | VHeir _ _ => outcome (serialize v) | _ => True end.
Proof.
  intros Hv Hp.
  destruct v as [| | b | x | s | i | xs | fields | p fields]; try exact Logic.I;
    rewrite serialize_unfold;
    (destruct (isInt _); [exact E_call|]);
    (destruct (truthy _); apply collect_outcome; assumption).
Qed.

Lemma serialize_invariant_parts v :
  I v -> outcome (serialize v) /\ parts v /\ parts (get_prop v "properties").
Proof.
  induction v as [| | b | x | s | i | xs IH | fields IH | p fields IHp IH]
    using value_ind'; intros Hin.
  - repeat split; try constructor. exact P_null.
  - repeat split; try constructor. exact P_null.
  - repeat split; try constructor. apply P_bool.
  - repeat split; try constructor. now apply P_num.
  - split; [apply P_str|]. split; [|constructor].
    apply (Forall_combine_snd (fun x => outcome (serialize x))), Forall_forall.
    intros x Hx. apply in_map_iff in Hx as [c [<- _]]. apply P_str.
  - destruct (P_int i Hin) as (Hr & Hl & Hh).
    split; [exact Hr|]. split; [|constructor].
    repeat constructor; assumption.
  - assert (H : Forall (fun x => outcome (serialize x)) xs).
    { pose proof (I_arr xs Hin) as Hxs. rewrite Forall_forall in *.
      intros x Hx. now apply IH, Hxs. }
    split; [|split; [|constructor]].
    + cbn [serialize].
      pose proof (try_map_outcome serialize P xs H) as Hys.
      destruct (try_map serialize xs) as [e|ys]; [exact Hys|].
      now apply P_arr.
    + now apply (Forall_combine_snd (fun x => outcome (serialize x))).
  - assert (Hall : Forall (fun kv => outcome (serialize (snd kv))
                                     /\ parts (snd kv)) fields).
    { pose proof (I_obj fields Hin) as Hf. rewrite Forall_forall in *.
      intros kv Hkv. destruct (IH kv Hkv (Hf kv Hkv)) as (H1 & H2 & _). auto. }
    assert (Hparts : parts (VObj fields)).
    { eapply Forall_impl; [|exact Hall]. now intros kv [H _]. }
    assert (Hprops : parts (get_prop (VObj fields) "properties")).
    { destruct (get_prop_cases (VObj fields))
        as [-> | [(k & Hk & _) | (p & fs & Eq & _)]];
        [constructor | | discriminate Eq].
      rewrite Forall_forall in Hall. exact (proj2 (Hall _ Hk)). }
    split; [|split; assumption].
    exact (object_outcome (VObj fields) Hparts Hprops).
  - destruct (I_heir p fields Hin) as [Hp Hf].
    assert (Hall : Forall (fun kv => outcome (serialize (snd kv))
                                     /\ parts (snd kv)) fields).
    { rewrite Forall_forall in *.
      intros kv Hkv. destruct (IH kv Hkv (Hf kv Hkv)) as (H1 & H2 & _). auto. }
    assert (Hparts : parts (VHeir p fields)).
    { eapply Forall_impl; [|exact Hall]. now intros kv [H _]. }
    assert (Hprops : parts (get_prop (VHeir p fields) "properties")).
    { destruct (get_prop_cases (VHeir p fields))
        as [-> | [(k & Hk & _) | (p' & fs & Eq & ->)]]; [constructor | |].
      - rewrite Forall_forall in Hall. exact (proj2 (Hall _ Hk)).
      - injection Eq as <- <-. exact (proj2 (proj2 (IHp Hp))). }
    split; [|split; assumption].
    exact (object_outcome (VHeir p fields) Hparts Hprops).
Qed.

Lemma serialize_invariant v :
  I v ->
  match serialize v with
  | inl e => E e
  | inr out => P out
  end.
Proof. intros Hin. now apply serialize_invariant_parts. Qed.

End Invariant.

(* ------------------------------------------------------------------ *)
(** ** Values that [serialize] leaves alone *)

Lemma try_map_id {A} (f : A -> js_error + A) (xs : list A) :
  Forall (fun x => f x = inr x) xs -> try_map f xs = inr xs.
Proof.
  induction 1 as [|x xs Hx _ IH]; cbn [try_map]; [reflexivity|].
  now rewrite Hx, IH.
Qed.

Lemma serialize_fixed v :
  json_safe v = true -> plain_data v = true -> serialize v = inr v.
Proof.
  induction v as [| | b | x | s | i | xs IH | fields IH | p fields _ _]
    using value_ind';
    intros Hsafe Hplain; try reflexivity; try discriminate.
  - (* arrays *)
    cbn [serialize json_safe plain_data] in *. rewrite try_map_id; [reflexivity|].
    apply forallb_Forall in Hsafe, Hplain. rewrite Forall_forall in *.
    intros x Hx. apply IH; auto.
  - (* mappings *)
    rewrite serialize_unfold.
    cbn [json_safe plain_data] in Hsafe, Hplain.
    apply andb_true_iff in Hsafe as [Hd Hsafe].
    apply andb_true_iff in Hplain as [Hplain Hrec].
    apply andb_true_iff in Hplain as [Hplain Hproto].
    apply andb_true_iff in Hplain as [Hp Hint].
    apply negb_true_iff in Hp, Hint. rewrite Hp, Hint.
    cbn [entries]. rewrite collect_try_map, try_map_fixed.
    + rewrite from_entries_plain; [reflexivity|].
      unfold plain_keys. now rewrite Hd, Hproto.
    + apply forallb_Forall in Hsafe, Hrec. rewrite Forall_forall in *.
      intros kv Hkv. apply IH; auto.
Qed.

(** The entries a traversal returns keep the keys and hold the
    serialized values. *)
Lemma entries_serialized (ps out : list (string * value)) :
  try_map (entry_with serialize) ps = inr out
  <-> obj_keys out = obj_keys ps
      /\ Forall2 (fun kv kx => serialize (snd kv) = inr (snd kx)) ps out.
Proof.
  rewrite try_map_inr. split.
  - induction 1 as [|kv kx ps out Hkx _ IH]; [now split|].
    destruct IH as [IHk IHf]. unfold entry_with in Hkx.
    destruct (serialize (snd kv)) as [e|x] eqn:Hx; [discriminate|].
    injection Hkx as <-. cbn [obj_keys map fst snd] in *. split.
    + f_equal. exact IHk.
    + constructor; assumption.
  - intros [Hk Hf]. revert Hk.
    induction Hf as [|kv [k x] ps out Hx _ IH]; intros Hk; constructor.
    + unfold entry_with. cbn [snd] in Hx. rewrite Hx.
      cbn [obj_keys map fst] in Hk. injection Hk as -> _. reflexivity.
    + apply IH. cbn [obj_keys map] in Hk. now injection Hk.
Qed.
(* ------------------------------------------------------------------ *)
(** ** The [/query] handler *)

Section Query.
Variable env : string -> option string.
Variable db : database.

(** A request whose [cypher] is falsy is answered at once. *)
Lemma post_query_falsy req_body w :
  truthy (get_prop req_body "cypher") = false ->
  post_query env db req_body w
  = (mkWorld (calls w) (console w)
             (sent w ++ [mkResponse 400 missing_cypher_body]), inr tt).
Proof. intros H. unfold post_query. rewrite H. reflexivity. Qed.

(** Every other request opens a session, runs the query, answers and
    closes the session. *)
Lemma post_query_truthy req_body w :
  truthy (get_prop req_body "cypher") = true ->
  let cypher := get_prop req_body "cypher" in
  let params := js_or (get_prop req_body "params") (VObj []) in
  let cs := calls w ++ [Session (NEO4J_DB env); Run cypher params; Close] in
  let r := match close_outcome db with Some e => inl e | None => inr tt end in
  post_query env db req_body w
  = match try_outcome db cypher params with
    | inl err =>
        (mkWorld cs (console w ++ [err])
                 (sent w ++ [mkResponse 400 (failure_body err)]), r)
    | inr (columns, data) =>
        (mkWorld cs (console w)
                 (sent w ++ [mkResponse 200 (success_body columns data)]), r)
    end.
Proof.
  intros H. unfold post_query, try_outcome. rewrite H. simpl.
  unfold bind, try_catch_finally, session_run, session_close, driver_session,
    log_call, lift, bind, res_json, console_error, throw, ret. simpl.
  destruct (run_outcome db _ _) as [err|records]; simpl.
  - destruct (close_outcome db); simpl; rewrite <- !app_assoc; reflexivity.
  - destruct (data_of _ records) as [err|data]; simpl;
      destruct (close_outcome db); simpl; rewrite <- !app_assoc; reflexivity.
Qed.

End Query.

(* ------------------------------------------------------------------ *)
(** ** Records of one result *)

Lemma field_index_absent ks k :
  includes ks k = false -> Rec.field_index ks k = None.
Proof.
  induction ks as [|a ks IH]; [reflexivity|].
  unfold includes. cbn [existsb Rec.field_index].
  intros H. apply orb_false_iff in H as [Ha Hks].
  rewrite (IH Hks), String.eqb_sym, Ha. reflexivity.
Qed.


Lemma field_index_distinct pre k suf :
  distinct (pre ++ k :: suf) = true ->
  Rec.field_index (pre ++ k :: suf) k = Some (List.length pre).
Proof.
  induction pre as [|a pre IH]; cbn [app distinct Rec.field_index List.length];
    intros H; apply andb_true_iff in H as [Hk H].
  - apply negb_true_iff in Hk.
    now rewrite (field_index_absent _ _ Hk), String.eqb_refl.
  - now rewrite (IH H).
Qed.







(* ================================================================== *)
(** * Wide integers *)
(* ================================================================== *)

Lemma inSafeRange_spec i :
  Int64.inSafeRange i = (Z.abs (Int64.value i) <=? 2 ^ 53 - 1).
Proof.
  unfold Int64.inSafeRange, Int64.greaterThanOrEqual, Int64.lessThanOrEqual.
  change (Int64.value Int64.MIN_SAFE_VALUE) with (- (2 ^ 53 - 1)).
  change (Int64.value Int64.MAX_SAFE_VALUE) with (2 ^ 53 - 1).
  generalize (Int64.value i) (2 ^ 53 - 1). intros z m.
  destruct (Z.leb_spec (- m) z), (Z.leb_spec z m), (Z.leb_spec (Z.abs z) m);
    simpl; try reflexivity; lia.
Qed.

(** The decimal numeral [toString] prints reads back as the value. *)
Lemma toString_decimal i :
  parse_decimal (Int64.toString i) = Some (Int64.value i).
Proof.
  unfold parse_decimal, Int64.toString.
  rewrite NilZero.isi.
  - simpl. now rewrite DecimalZ.of_to.
  - destruct (Int64.value i); simpl; intros H; try discriminate H.
    injection H. apply DecimalPos.Unsigned.to_uint_nonnil.
  - destruct (Int64.value i); simpl; intros H; try discriminate H.
    injection H. apply DecimalPos.Unsigned.to_uint_nonnil.
Qed.


(** C1: [serialize] turns an [Integer] whose value lies in the safe
    range, between [-(2^53 - 1)] and [2^53 - 1], into a number that is
    exactly that value, and any other [Integer] into the string of its
    decimal digits, not into a number. *)
Theorem serialize_integer i :
  if Z.abs (Int64.value i) <=? 2 ^ 53 - 1
  then exists x, serialize (VInt i) = inr (VNum x)
                 /\ Number.to_Z x = Some (Int64.value i)
  else exists s, serialize (VInt i) = inr (VStr s)
                 /\ s = Int64.toString i
                 /\ parse_decimal s = Some (Int64.value i).
Proof.
  rewrite <- inSafeRange_spec. cbn [serialize].
  destruct (Int64.inSafeRange i) eqn:Hsafe.
  - eexists. split; [reflexivity|]. now apply NumberFacts.toNumber_exact.
  - eexists. split; [reflexivity|]. split; [reflexivity|].
    apply toString_decimal.
Qed.

(** The two sides of the upper bound of the safe range. *)
Example serialize_max_safe :
  serialize (VInt Int64.MAX_SAFE_VALUE)
  = inr (VNum (S754_finite false 9007199254740991 0))
  /\ serialize (VInt (Int64.fromBits 0 0x200000))
     = inr (VStr "9007199254740992").
Proof. split; reflexivity. Qed.

(* ================================================================== *)
(** * Properties of the serializer *)
(* ================================================================== *)

(** C3, as stated, fails, in four ways.  A plain mapping of JSON-safe
    values that has a [properties] entry is JSON-safe, yet [serialize]
    takes it for a graph entity and returns the entries of that
    [properties] value instead of the mapping; on [nested_properties] a
    second pass changes the result again.  A mapping with a key
    [__proto__] loses that key.  A mapping with a member [__isInteger__]
    that is [true] is taken for an [Integer], and the call of its
    [inSafeRange] throws.  A mapping whose prototype was replaced comes
    back with the prototype of a fresh [{}]. *)
Lemma json_safe_not_fixed :
  (json_safe nested_properties = true
   /\ serialize nested_properties <> inr nested_properties
   /\ exists once twice,
        serialize nested_properties = inr once
        /\ serialize once = inr twice /\ twice <> once)
  /\ (json_safe proto_mapping = true
      /\ serialize proto_mapping <> inr proto_mapping)
  /\ (json_safe int_like = true
      /\ serialize int_like = inl not_a_function)
  /\ (json_safe bare_mapping = true
      /\ serialize bare_mapping <> inr bare_mapping).
Proof.
  split; [split; [reflexivity|]; split|].
  - vm_compute. intros H. discriminate H.
  - eexists. eexists. split; [reflexivity|]. split; [reflexivity|].
    intros H. discriminate H.
  - split; [|split]; (split; [reflexivity|]); try reflexivity;
      vm_compute; intros H; discriminate H.
Qed.

(** C3, amended: a JSON-safe value in which every mapping, at any depth,
    has the prototype it was created with, no truthy [properties]
    member, no [__isInteger__] member that is [true] and no key
    [__proto__] is returned unchanged by [serialize], and serializing it
    twice is the same as serializing it once. *)
Theorem serialize_json_safe_unchanged v :
  json_safe v = true ->
  plain_data v = true ->
  serialize v = inr v
  /\ exists once, serialize v = inr once /\ serialize once = serialize v.
Proof.
  intros Hsafe Hplain. pose proof (serialize_fixed v Hsafe Hplain) as H.
  split; [exact H|]. exists v. split; [exact H | reflexivity].
Qed.

Lemma serialize_json_safe_unchanged_witness :
  json_safe plain_json = true
  /\ plain_data plain_json = true
  /\ serialize plain_json = inr plain_json
  /\ exists once, serialize plain_json = inr once
                  /\ serialize once = serialize plain_json.
Proof.
  split; [reflexivity|]. split; [reflexivity|].
  apply (serialize_json_safe_unchanged plain_json); reflexivity.
Defined.

(** C4: an object whose [properties] is a mapping serializes to exactly
    that mapping with every value serialized, key by key and in order;
    no other field of the object (identity, labels, type, element id)
    reaches the result, and neither does the prototype of the mapping.
    The object is a graph entity, not something [neo4j.isInt] takes for
    an [Integer]; a result there is exactly when every property value
    has one. *)
Theorem serialize_entity_is_properties fields mapping props :
  obj_get fields "properties" = Some mapping ->
  mapping = VObj props \/ (exists q, mapping = VHeir q props) ->
  plain_keys (obj_keys props) = true ->
  obj_get fields "__isInteger__" <> Some (VBool true) ->
  forall result,
    serialize (VObj fields) = inr result
    <-> exists out,
          result = VObj out
          /\ obj_keys out = obj_keys props
          /\ Forall2 (fun kv kx => serialize (snd kv) = inr (snd kx)) props out.
Proof.
  intros Hget Hmap Hplain Hint result.
  assert (Hno : isInt (VObj fields) = false).
  { unfold isInt, get_prop.
    destruct (obj_get fields "__isInteger__") as [x|]; [|reflexivity].
    destruct x as [| | b | | | | | |]; try reflexivity.
    destruct b; [now elim Hint | reflexivity]. }
  assert (Hent : truthy mapping = true /\ entries mapping = props).
  { destruct Hmap as [-> | [q ->]]; split; reflexivity. }
  destruct Hent as [Ht He].
  rewrite serialize_unfold, Hno. unfold get_prop. rewrite Hget, Ht, He.
  rewrite collect_try_map. split.
  - destruct (try_map (entry_with serialize) props) as [e|out] eqn:Hout;
      [discriminate|].
    intros E. injection E as <-. apply entries_serialized in Hout as [Hk Hf].
    rewrite from_entries_plain by (unfold obj_keys in *; now rewrite Hk).
    exists out. auto.
  - intros (out & -> & Hk & Hf).
    rewrite (proj2 (entries_serialized props out) (conj Hk Hf)).
    rewrite from_entries_plain; [reflexivity|].
    unfold obj_keys in *. now rewrite Hk.
Qed.

Lemma serialize_entity_is_properties_witness :
  obj_get a_node "properties"
  = Some (VObj [("name", VStr "Ann");
                ("age", VInt (Int64.fromBits 41 0));
                ("labels", VArr [])])
  /\ serialize (VObj a_node)
     = inr (VObj [("name", VStr "Ann");
                  ("age", VNum (Number.of_Z 41));
                  ("labels", VArr [])]).
Proof.
  split; [reflexivity|].
  apply (serialize_entity_is_properties a_node
           (VObj [("name", VStr "Ann");
                  ("age", VInt (Int64.fromBits 41 0));
                  ("labels", VArr [])])
           [("name", VStr "Ann");
            ("age", VInt (Int64.fromBits 41 0));
            ("labels", VArr [])]); try reflexivity.
  - now left.
  - discriminate.
  - eexists. split; [reflexivity|]. split; [reflexivity|].
    repeat constructor.
Defined.

(* ================================================================== *)
(** * Properties of the [/query] handler *)
(* ================================================================== *)




(** C6: a request whose body has no [cypher] field, own or inherited,
    is answered with status 400 and an error body, and the driver is not
    called: no session is opened and nothing is run. *)
Theorem query_without_cypher env db req_body w :
  (forall fields, req_body = VObj fields -> obj_get fields "cypher" = None) ->
  (forall p fields, req_body = VHeir p fields ->
                    obj_get fields "cypher" = None
                    /\ inherited p "cypher" = None) ->
  post_query env db req_body w
  = (mkWorld (calls w) (console w)
             (sent w ++ [mkResponse 400
                           (VObj [("error", VStr "Missing 'cypher' in body.")])]),
     inr tt).
Proof.
  intros H H'. apply post_query_falsy.
  destruct req_body as [| | | | | | | fields | p fields]; try reflexivity.
  - unfold get_prop. now rewrite (H fields eq_refl).
  - unfold get_prop. destruct (H' p fields eq_refl) as [-> ->]. reflexivity.
Qed.

Lemma query_without_cypher_witness :
  (forall fields, VObj [] = VObj fields -> obj_get fields "cypher" = None)
  /\ post_query no_env db_two_records (VObj []) world0
     = (mkWorld [] []
                [mkResponse 400
                   (VObj [("error", VStr "Missing 'cypher' in body.")])],
        inr tt).
Proof.
  assert (H : forall fields, VObj [] = VObj fields -> obj_get fields "cypher" = None).
  { intros fields E. injection E as <-. reflexivity. }
  split; [exact H|].
  apply (query_without_cypher no_env db_two_records (VObj []) world0 H).
  intros p fields E. discriminate E.
Defined.

(** C7: when the [try] block of [POST /query] throws (the query run
    fails, a record lacks a column, or a value cannot be serialized),
    the error is logged and answered
    with status 400 and the body
    [{ results: [], errors: [{ code, message }] }]; [code] is the error's
    code when it has a non-empty one and ["QueryError"] otherwise,
    [message] is the error's message.  The handler itself then ends
    normally: the only error that can leave it is one thrown by
    [session.close()]. *)
Theorem query_error_envelope env db req_body err w :
  truthy (get_prop req_body "cypher") = true ->
  try_outcome db (get_prop req_body "cypher")
              (js_or (get_prop req_body "params") (VObj [])) = inl err ->
  post_query env db req_body w
  = (mkWorld (calls w ++ [Session (NEO4J_DB env);
                          Run (get_prop req_body "cypher")
                              (js_or (get_prop req_body "params") (VObj []));
                          Close])
             (console w ++ [err])
             (sent w ++
                [mkResponse 400
                   (VObj [("results", VArr []);
                          ("errors",
                           VArr [VObj [("code",
                                        VStr match code err with
                                             | Some c =>
                                                 if String.eqb c ""
                                                 then "QueryError" else c
                                             | None => "QueryError"
                                             end);
                                       ("message", VStr (message err))]])])]),
     match close_outcome db with Some e => inl e | None => inr tt end).
Proof.
  intros Hc Herr. rewrite post_query_truthy by exact Hc. rewrite Herr.
  unfold failure_body, js_or, code_value.
  destruct (code err) as [c|]; [|reflexivity].
  cbn [truthy]. destruct (String.eqb c ""); reflexivity.
Qed.

Lemma query_error_envelope_witness :
  post_query no_env db_failing a_query world0
  = (mkWorld [Session "neo4j"; Run (VStr "MATCH (n) RETURN n") (VObj []); Close]
             [mkError (Some "Neo.ClientError.Statement.SyntaxError") "Invalid input"]
             [mkResponse 400
                (VObj [("results", VArr []);
                       ("errors",
                        VArr [VObj [("code", VStr "Neo.ClientError.Statement.SyntaxError");
                                    ("message", VStr "Invalid input")]])])],
     inr tt).
Proof.
  exact (query_error_envelope no_env db_failing a_query
           (mkError (Some "Neo.ClientError.Statement.SyntaxError") "Invalid input")
           world0 eq_refl eq_refl).
Defined.

(** C8: whenever [POST /query] has opened a session, whatever the query
    run and the serialization do, the calls it makes on the driver are
    the session, the run and, last, [session.close()]. *)
Theorem session_always_closed env db req_body w' r d :
  post_query env db req_body world0 = (w', r) ->
  In (Session d) (calls w') ->
  exists cypher params, calls w' = [Session d; Run cypher params; Close].
Proof.
  intros Hpost Hin.
  destruct (truthy (get_prop req_body "cypher")) eqn:Hc.
  - rewrite post_query_truthy in Hpost by exact Hc.
    assert (Hcalls : calls w' = [Session (NEO4J_DB env);
                                 Run (get_prop req_body "cypher")
                                     (js_or (get_prop req_body "params") (VObj []));
                                 Close]).
    { destruct (try_outcome _ _ _) as [err|[columns data]];
        injection Hpost as <- _; reflexivity. }
    rewrite Hcalls in Hin |- *.
    destruct Hin as [E|[E|[E|[]]]]; try discriminate E.
    injection E as <-. eauto.
  - rewrite post_query_falsy in Hpost by exact Hc.
    injection Hpost as <- _. destruct Hin.
Qed.

Lemma session_always_closed_witness :
  In (Session "neo4j") (calls (fst (post_query no_env db_failing a_query world0)))
  /\ exists cypher params,
       calls (fst (post_query no_env db_failing a_query world0))
       = [Session "neo4j"; Run cypher params; Close].
Proof.
  assert (Hin : In (Session "neo4j")
                   (calls (fst (post_query no_env db_failing a_query world0)))).
  { left. reflexivity. }
  split; [exact Hin|].
  exact (session_always_closed no_env db_failing a_query
           (fst (post_query no_env db_failing a_query world0))
           (snd (post_query no_env db_failing a_query world0))
           "neo4j" eq_refl Hin).
Defined.

(** C10: a request whose [cypher] field holds a falsy value (the empty
    string, [null], [false], zero) is answered exactly as one without
    the field: status 400, the same error body, and no call on the
    driver. *)
Theorem query_with_falsy_cypher env db fields c w :
  obj_get fields "cypher" = Some c ->
  truthy c = false ->
  post_query env db (VObj fields) w
  = (mkWorld (calls w) (console w)
             (sent w ++ [mkResponse 400
                           (VObj [("error", VStr "Missing 'cypher' in body.")])]),
     inr tt)
  /\ post_query env db (VObj fields) w = post_query env db (VObj []) w.
Proof.
  intros Hget Hc.
  assert (H : truthy (get_prop (VObj fields) "cypher") = false).
  { unfold get_prop. now rewrite Hget. }
  split.
  - now apply post_query_falsy.
  - now rewrite !post_query_falsy.
Qed.

Lemma query_with_falsy_cypher_witness :
  (post_query no_env db_two_records (VObj [("cypher", VStr "")]) world0
   = (mkWorld [] [] [mkResponse 400
                       (VObj [("error", VStr "Missing 'cypher' in body.")])],
      inr tt)
   /\ post_query no_env db_two_records (VObj [("cypher", VStr "")]) world0
      = post_query no_env db_two_records (VObj []) world0)
  /\ (post_query no_env db_two_records (VObj [("cypher", VNull)]) world0
      = (mkWorld [] [] [mkResponse 400
                          (VObj [("error", VStr "Missing 'cypher' in body.")])],
         inr tt)
      /\ post_query no_env db_two_records (VObj [("cypher", VNull)]) world0
         = post_query no_env db_two_records (VObj []) world0).
Proof.
  split.
  - exact (query_with_falsy_cypher no_env db_two_records
             [("cypher", VStr "")] (VStr "") world0 eq_refl eq_refl).
  - exact (query_with_falsy_cypher no_env db_two_records
             [("cypher", VNull)] VNull world0 eq_refl eq_refl).
Defined.

(* ================================================================== *)
(** * The origin check *)
(* ================================================================== *)

Lemma includes_In ks k : includes ks k = true <-> In k ks.
Proof.
  unfold includes. rewrite existsb_exists. split.
  - intros [x [Hx E]]. apply String.eqb_eq in E. now subst.
  - intros H. exists k. split; [exact H | apply String.eqb_refl].
Qed.

(** The callback allows an origin that is absent, empty or on the list
    and refuses every other one. *)
Lemma origin_callback_cases env origin :
  origin_callback env origin
  = match origin with
    | None => (None, true)
    | Some o =>
        if String.eqb o "" || includes (ORIGIN_ALLOW_LIST env) o
        then (None, true)
        else (Some (mkError None ("Not allowed by CORS: " ++ o)), false)
    end.
Proof.
  destruct origin as [o|]; [|reflexivity].
  unfold origin_callback. cbn [origin_value truthy]. now rewrite negb_involutive.
Qed.

(** C9, as stated, fails on a request whose [Origin] header is empty:
    the empty string is not on the allow-list, whose entries are never
    empty, and yet the request is allowed and reaches its handler. *)
Lemma empty_origin_allowed :
  ~ In "" (ORIGIN_ALLOW_LIST no_env)
  /\ origin_callback no_env (Some "") = (None, true)
  /\ forall A (handler : M A), through_cors no_env (Some "") handler = handler.
Proof.
  split; [|split; reflexivity].
  intros [E|[E|[]]]; discriminate E.
Qed.

(** C9, amended.  The allow-list is read off the configured string, or
    off the default when the variable is unset or empty: its entries are
    the pieces between the commas, trimmed, that are not empty.  A
    request without an [Origin] header is allowed, and so is one whose
    header is empty or on the list; it goes on to its handler.  A
    request that declares any other origin is refused with an error, and
    the middleware hands that error on instead of running the route's
    handler, whose effects therefore never happen. *)
Theorem origin_check env cfg :
  (env "ORIGIN_ALLOW_LIST" = Some cfg /\ cfg <> "")
  \/ ((env "ORIGIN_ALLOW_LIST" = None \/ env "ORIGIN_ALLOW_LIST" = Some "")
      /\ cfg = "https://nettedletters.org,https://tool.nettedletters.org") ->
  let listed o :=
    o <> "" /\ exists piece, In piece (split "," cfg) /\ trim piece = o in
  (forall o, In o (ORIGIN_ALLOW_LIST env) <-> listed o)
  /\ (forall A (handler : M A),
        origin_callback env None = (None, true)
        /\ through_cors env None handler = handler)
  /\ (forall o, o = "" \/ listed o ->
                origin_callback env (Some o) = (None, true)
                /\ forall A (handler : M A),
                     through_cors env (Some o) handler = handler)
  /\ (forall o, o <> "" -> ~ listed o ->
                origin_callback env (Some o)
                = (Some (mkError None ("Not allowed by CORS: " ++ o)), false)
                /\ forall A (handler : M A) w,
                     through_cors env (Some o) handler w
                     = (w, inl (mkError None ("Not allowed by CORS: " ++ o)))).
Proof.
  intros Hcfg listed.
  assert (Hlist : forall o, In o (ORIGIN_ALLOW_LIST env) <-> listed o).
  { intros o. unfold ORIGIN_ALLOW_LIST, listed.
    replace (env_or (env "ORIGIN_ALLOW_LIST")
               "https://nettedletters.org,https://tool.nettedletters.org")
      with cfg.
    - rewrite filter_In, in_map_iff. cbn [truthy].
      rewrite negb_true_iff, String.eqb_neq. split.
      + intros [[piece [Ht Hin]] Hne]. eauto.
      + intros [Hne [piece [Hin Ht]]]. eauto.
    - destruct Hcfg as [[-> Hne] | [[-> | ->] ->]]; try reflexivity.
      unfold env_or. apply String.eqb_neq in Hne. now rewrite Hne. }
  split; [exact Hlist|]. split; [split; reflexivity|]. split.
  - intros o Ho.
    assert (H : origin_callback env (Some o) = (None, true)).
    { rewrite origin_callback_cases. destruct Ho as [-> | Ho]; [reflexivity|].
      apply Hlist, includes_In in Ho. rewrite Ho. now rewrite orb_true_r. }
    split; [exact H|]. intros A handler. unfold through_cors. now rewrite H.
  - intros o Hne Hnot.
    assert (H : origin_callback env (Some o)
                = (Some (mkError None ("Not allowed by CORS: " ++ o)), false)).
    { rewrite origin_callback_cases. apply String.eqb_neq in Hne. rewrite Hne.
      destruct (includes (ORIGIN_ALLOW_LIST env) o) eqn:Hin; [|reflexivity].
      apply includes_In, Hlist in Hin. now elim Hnot. }
    split; [exact H|]. intros A handler w. unfold through_cors. now rewrite H.
Qed.

Lemma origin_check_witness :
  ORIGIN_ALLOW_LIST env_nbsp = ["https://a.example"; "https://b.example"]
  /\ origin_callback env_nbsp (Some "https://a.example") = (None, true)
  /\ origin_callback env_nbsp (Some "") = (None, true)
  /\ origin_callback env_nbsp (Some "https://evil.example")
     = (Some (mkError None "Not allowed by CORS: https://evil.example"), false)
  /\ forall A (handler : M A) w,
       through_cors env_nbsp (Some "https://evil.example") handler w
       = (w, inl (mkError None "Not allowed by CORS: https://evil.example")).
Proof.
  assert (Hne : (bytes [194; 160]%N ++ "https://a.example , https://b.example,")%string
                <> "") by discriminate.
  destruct (origin_check env_nbsp
              (bytes [194; 160]%N ++ "https://a.example , https://b.example,")%string
              (or_introl (conj eq_refl Hne)))
    as (Hlist & Hnone & Hallow & Hrefuse).
  split; [reflexivity|]. split; [|split].
  - apply Hallow. right. split; [discriminate|].
    exists (bytes [194; 160]%N ++ "https://a.example ")%string.
    split; [left|]; reflexivity.
  - apply Hallow. now left.
  - assert (H : forall A : Type,
               origin_callback env_nbsp (Some "https://evil.example")
               = (Some (mkError None
                          ("Not allowed by CORS: " ++ "https://evil.example")),
                  false)
               /\ forall (handler : M A) w,
                    through_cors env_nbsp (Some "https://evil.example") handler w
                    = (w, inl (mkError None
                                 ("Not allowed by CORS: "
                                  ++ "https://evil.example")))).
    { intros A. destruct (Hrefuse "https://evil.example") as [H1 H2].
      - discriminate.
      - intros [_ (piece & Hin & Ht)].
        destruct Hin as [<-|[<-|[<-|[]]]]; discriminate Ht.
      - split; [exact H1 | apply H2]. }
    split; [exact (proj1 (H unit))|]. intros A. exact (proj2 (H A)).
Defined.

(* ================================================================== *)
(** * The socket probes *)
(* ================================================================== *)

Lemma deliver_destroyed n st e :
  Probe.destroyed st = true -> Probe.deliver n st e = st.
Proof. intros H. unfold Probe.deliver. now rewrite H. Qed.

Lemma deliver_all_destroyed n evs :
  forall st, Probe.destroyed st = true ->
             fold_left (Probe.deliver n) evs st = st.
Proof.
  induction evs as [|e evs IH]; intros st H; simpl; [reflexivity|].
  rewrite deliver_destroyed by exact H. now apply IH.
Qed.

(** C2: in the raw and in the TLS probe nothing is sent before an event
    arrives; the first event (connection, timeout or error) sends one
    response, 200, 504 or 502 accordingly, and leaves the socket
    destroyed; whatever events follow change nothing, so no second
    response is ever sent. *)
Theorem probe_single_outcome p e rest :
  p = Probe.bolt \/ (exists a alpn c, p = Probe.tls a alpn c) ->
  Probe.sent (Probe.after p []) = []
  /\ (exists resp,
        Probe.sent (Probe.after p [e]) = [resp]
        /\ status resp = match e with
                         | Probe.established => 200
                         | Probe.idle => 504
                         | Probe.failed _ => 502
                         end)
  /\ Probe.destroyed (Probe.after p [e]) = true
  /\ Probe.after p (e :: rest) = Probe.after p [e]
  /\ Probe.sent (Probe.after p (e :: rest)) = Probe.sent (Probe.after p [e]).
Proof.
  intros Hp.
  assert (Hd : Probe.destroyed (Probe.after p [e]) = true).
  { destruct Hp as [->|(a & alpn & c & ->)]; destruct e; reflexivity. }
  assert (Hrest : Probe.after p (e :: rest) = Probe.after p [e]).
  { unfold Probe.after in *. simpl in *. now apply deliver_all_destroyed. }
  split; [destruct Hp as [->|(a & alpn & c & ->)]; reflexivity|].
  split; [destruct Hp as [->|(a & alpn & c & ->)]; destruct e; eexists;
          split; reflexivity|].
  split; [exact Hd|]. split; [exact Hrest | now rewrite Hrest].
Qed.

Lemma probe_single_outcome_witness :
  Probe.sent (Probe.after Probe.bolt
                [Probe.idle; Probe.established; Probe.failed "ECONNRESET"])
  = Probe.sent (Probe.after Probe.bolt [Probe.idle])
  /\ Probe.sent (Probe.after (Probe.tls true VUndefined VNull)
                   [Probe.failed "ECONNREFUSED"; Probe.idle; Probe.established])
     = Probe.sent (Probe.after (Probe.tls true VUndefined VNull)
                     [Probe.failed "ECONNREFUSED"]).
Proof.
  split.
  - exact (proj2 (proj2 (proj2 (proj2
             (probe_single_outcome Probe.bolt Probe.idle
                [Probe.established; Probe.failed "ECONNRESET"]
                (or_introl eq_refl)))))).
  - exact (proj2 (proj2 (proj2 (proj2
             (probe_single_outcome (Probe.tls true VUndefined VNull)
                (Probe.failed "ECONNREFUSED")
                [Probe.idle; Probe.established]
                (or_intror (ex_intro _ true
                              (ex_intro _ VUndefined
                                 (ex_intro _ VNull eq_refl))))))))).
Defined.

(* ================================================================== *)
(** * Further properties of the serializer *)
(* ================================================================== *)


Lemma output_shape_object out :
  plain_keys (obj_keys (own out)) = true ->
  Forall (fun kv => output_shape (snd kv) = true) (own out) ->
  output_shape (object_value out) = true.
Proof.
  intros Hk Hv. unfold object_value.
  destruct (prototype_of out); cbn [output_shape]; rewrite Hk;
    now apply forallb_Forall.
Qed.

Lemma serialize_shape v :
  match serialize v with
  | inr out => output_shape out = true
  | inl e => e = not_a_function
  end.
Proof.
  apply (serialize_invariant (fun _ => True)
           (fun out => output_shape out = true)
           (fun e => e = not_a_function)); try reflexivity; auto.
  - intros xs _. apply Forall_forall. auto.
  - intros fields _. apply Forall_forall. auto.
  - intros p fields _. split; [exact I | apply Forall_forall; auto].
  - intros i _. destruct (Int64.inSafeRange i); auto.
  - intros ys H. cbn [output_shape]. now apply forallb_Forall.
  - apply output_shape_object.
Qed.







(** X3: [serialize] keeps [Integer]s apart: when two of them serialize
    to the same result they have the same value. *)
Theorem serialize_integer_injective i j :
  serialize (VInt i) = serialize (VInt j) -> Int64.value i = Int64.value j.
Proof.
  cbn [serialize]. intros H. injection H as H.
  destruct (Int64.inSafeRange i) eqn:Hi, (Int64.inSafeRange j) eqn:Hj;
    try discriminate H; injection H as H.
  - pose proof (NumberFacts.toNumber_exact i Hi) as Ei.
    pose proof (NumberFacts.toNumber_exact j Hj) as Ej.
    rewrite H, Ej in Ei. now injection Ei.
  - pose proof (toString_decimal i) as Ei. pose proof (toString_decimal j) as Ej.
    rewrite H, Ej in Ei. now injection Ei.
Qed.

Lemma serialize_integer_injective_witness :
  serialize (VInt (Int64.fromBits 1 0x200000))
  = serialize (VInt (Int64.fromBits 1 0x200000))
  /\ Int64.value (Int64.fromBits 1 0x200000)
     = Int64.value (Int64.fromBits 1 0x200000).
Proof.
  split; [reflexivity|].
  apply (serialize_integer_injective
           (Int64.fromBits 1 0x200000) (Int64.fromBits 1 0x200000)).
  reflexivity.
Defined.

Lemma serialize_fixed_shape v :
  output_shape v = true -> plain_data v = true -> serialize v = inr v.
Proof.
  induction v as [| | b | x | s | i | xs IH | fields IH | p fields _ _]
    using value_ind';
    intros Hshape Hplain; try reflexivity; try discriminate.
  - cbn [serialize output_shape plain_data] in *.
    rewrite try_map_id; [reflexivity|].
    apply forallb_Forall in Hshape, Hplain. rewrite Forall_forall in *.
    intros x Hx. apply IH; auto.
  - rewrite serialize_unfold.
    cbn [output_shape plain_data] in Hshape, Hplain.
    apply andb_true_iff in Hshape as [Hk Hshape].
    apply andb_true_iff in Hplain as [Hplain Hrec].
    apply andb_true_iff in Hplain as [Hplain _].
    apply andb_true_iff in Hplain as [Hp Hint].
    apply negb_true_iff in Hp, Hint. rewrite Hp, Hint.
    cbn [entries]. rewrite collect_try_map, try_map_fixed.
    + now rewrite from_entries_plain.
    + apply forallb_Forall in Hshape, Hrec. rewrite Forall_forall in *.
      intros kv Hkv. apply IH; auto.
Qed.

(** X4: serializing a result of [serialize] again changes nothing,
    provided every mapping in that result has the prototype of a fresh
    [{}], no truthy [properties] member and no [__isInteger__] member
    that is [true]. *)
Theorem serialize_twice v once :
  serialize v = inr once ->
  plain_data once = true ->
  serialize once = inr once.
Proof.
  intros Hv Hplain. apply serialize_fixed_shape; [|exact Hplain].
  pose proof (serialize_shape v) as H. now rewrite Hv in H.
Qed.

Lemma serialize_twice_witness :
  exists once,
    serialize a_path = inr once /\ plain_data once = true
    /\ serialize once = inr once.
Proof.
  eexists. split; [reflexivity|]. split; [reflexivity|].
  eapply (serialize_twice a_path); reflexivity.
Defined.

(** X5: [serialize] answers [null] for [null] and [undefined] and for
    nothing else. *)
Theorem serialize_null_iff v :
  serialize v = inr VNull <-> v = VNull \/ v = VUndefined.
Proof.
  split.
  - intros H.
    assert (Hobj : forall es, collect serialize es <> inr VNull).
    { intros es. rewrite collect_try_map.
      destruct (try_map (entry_with serialize) es) as [e|kxs]; [discriminate|].
      unfold from_entries, object_value.
      destruct (prototype_of _); discriminate. }
    rewrite serialize_unfold in H.
    destruct v as [| | b | x | s | i | xs | fields | p fields]; auto;
      try discriminate H.
    + destruct (Int64.inSafeRange i); discriminate H.
    + destruct (try_map serialize xs); discriminate H.
    + destruct (isInt _); [discriminate H|].
      destruct (truthy _); now apply Hobj in H.
    + destruct (isInt _); [discriminate H|].
      destruct (truthy _); now apply Hobj in H.
  - intros [-> | ->]; reflexivity.
Qed.

(** X6: an object with the prototype it was created with, for which
    [neo4j.isInt] fails, without a truthy [properties] field and with
    plain keys keeps every key, in order, with its value serialized; a
    falsy [properties] entry is kept like any other.  A result there is
    exactly when every value has one. *)
Theorem serialize_plain_mapping fields :
  truthy (get_prop (VObj fields) "properties") = false ->
  isInt (VObj fields) = false ->
  plain_keys (obj_keys fields) = true ->
  forall result,
    serialize (VObj fields) = inr result
    <-> exists out,
          result = VObj out
          /\ obj_keys out = obj_keys fields
          /\ Forall2 (fun kv kx => serialize (snd kv) = inr (snd kx)) fields out.
Proof.
  intros Hp Hint Hk result. rewrite serialize_unfold, Hp, Hint.
  cbn [entries]. rewrite collect_try_map. split.
  - destruct (try_map (entry_with serialize) fields) as [e|out] eqn:Hout;
      [discriminate|].
    intros E. injection E as <-. apply entries_serialized in Hout as [Hko Hf].
    rewrite from_entries_plain by (unfold obj_keys in *; now rewrite Hko).
    exists out. auto.
  - intros (out & -> & Hko & Hf).
    rewrite (proj2 (entries_serialized fields out) (conj Hko Hf)).
    rewrite from_entries_plain; [reflexivity|].
    unfold obj_keys in *. now rewrite Hko.
Qed.

Lemma serialize_plain_mapping_witness :
  serialize (VObj [("properties", VNum (Number.of_Z 0));
                   ("since", VInt (Int64.fromBits 2024 0));
                   ("to", VUndefined)])
  = inr (VObj [("properties", VNum (Number.of_Z 0));
               ("since", VNum (Number.of_Z 2024));
               ("to", VNull)]).
Proof.
  apply (serialize_plain_mapping
           [("properties", VNum (Number.of_Z 0));
            ("since", VInt (Int64.fromBits 2024 0));
            ("to", VUndefined)]); try reflexivity.
  eexists. split; [reflexivity|]. split; [reflexivity|]. repeat constructor.
Defined.

(* ------------------------------------------------------------------ *)
(** ** Index keys *)

Lemma to_uint_nonnil n : Nat.to_uint n <> Decimal.Nil.
Proof.
  rewrite <- (DecimalNat.Unsigned.of_to n), DecimalNat.Unsigned.to_of.
  unfold Decimal.unorm. destruct (Decimal.nzhead _); discriminate.
Qed.

Lemma index_key_parse n :
  NilZero.uint_of_string (index_key n) = Some (Nat.to_uint n).
Proof. apply NilZero.usu, to_uint_nonnil. Qed.

Lemma index_key_inj a b : index_key a = index_key b -> a = b.
Proof.
  intros H. apply DecimalNat.Unsigned.to_uint_inj.
  pose proof (index_key_parse a) as Ha. rewrite H, index_key_parse in Ha.
  now injection Ha.
Qed.

Lemma index_key_not_proto n : String.eqb (index_key n) "__proto__" = false.
Proof.
  apply String.eqb_neq. intros H. pose proof (index_key_parse n) as Hn.
  rewrite H in Hn. discriminate Hn.
Qed.


Lemma distinct_NoDup ks : NoDup ks -> distinct ks = true.
Proof.
  induction 1 as [|k ks Hk _ IH]; [reflexivity|].
  cbn [distinct]. rewrite IH, andb_true_r. apply negb_true_iff.
  apply not_true_iff_false. now rewrite includes_In.
Qed.

Lemma NoDup_map_inj {A B} (f : A -> B) xs :
  (forall a b, f a = f b -> a = b) -> NoDup xs -> NoDup (map f xs).
Proof.
  intros Hf. induction 1 as [|x xs Hx _ IH]; cbn [map]; constructor; [|exact IH].
  rewrite in_map_iff. intros [y [E Hy]]. apply Hf in E. now subst.
Qed.

Lemma index_keys_plain n : plain_keys (index_keys n) = true.
Proof.
  unfold plain_keys, index_keys. apply andb_true_iff. split.
  - apply distinct_NoDup, NoDup_map_inj; [apply index_key_inj | apply seq_NoDup].
  - apply negb_true_iff, not_true_iff_false. rewrite includes_In, in_map_iff.
    intros [i [Hi _]]. pose proof (index_key_not_proto i) as H.
    rewrite Hi in H. discriminate H.
Qed.

Lemma obj_keys_combine {A} ks :
  forall xs : list A, List.length ks = List.length xs ->
                      obj_keys (combine ks xs) = ks.
Proof.
  unfold obj_keys.
  induction ks as [|k ks IH]; intros [|x xs] Hl; try discriminate Hl;
    [reflexivity|]. cbn [combine map fst]. f_equal. apply IH. now injection Hl.
Qed.

(** X7: an object whose [properties] field is not a mapping is still
    taken for an entity, unless [neo4j.isInt] takes it for an [Integer]
    first, and only that field decides the result: [true] or a non-zero
    number gives the empty mapping, an array gives the mapping from its
    indices to its serialized elements, a non-empty string the mapping
    from its indices to its code units, and an [Integer] the mapping of
    its two halves.  Every other field of the object is dropped. *)
Theorem serialize_odd_properties fields p :
  obj_get fields "properties" = Some p ->
  isInt (VObj fields) = false ->
  match p with
  | VBool true => serialize (VObj fields) = inr (VObj [])
  | VNum x => Number.truthy x = true -> serialize (VObj fields) = inr (VObj [])
  | VArr xs =>
      serialize (VObj fields)
      = match try_map serialize xs with
        | inl e => inl e
        | inr ys => inr (VObj (combine (index_keys (List.length xs)) ys))
        end
  | VStr s =>
      s <> "" ->
      serialize (VObj fields)
      = inr (VObj (combine (index_keys (List.length (code_units s)))
                           (map VStr (code_units s))))
  | VInt i =>
      serialize (VObj fields)
      = inr (VObj [("low", VNum (Number.of_Z (Int64.low i)));
                   ("high", VNum (Number.of_Z (Int64.high i)))])
  | _ => True
  end.
Proof.
  intros Hget Hint.
  assert (E : get_prop (VObj fields) "properties" = p).
  { unfold get_prop. now rewrite Hget. }
  destruct p as [| | [|] | x | s | i | xs | fs | q fs]; try exact I.
  - rewrite serialize_unfold, Hint, E. reflexivity.
  - intros Hx. rewrite serialize_unfold, Hint, E. cbn [truthy]. now rewrite Hx.
  - intros Hs. rewrite serialize_unfold, Hint, E. cbn [truthy entries].
    apply String.eqb_neq in Hs. rewrite Hs. cbn [negb].
    rewrite collect_try_map, try_map_fixed.
    + rewrite from_entries_plain; [reflexivity|].
      rewrite obj_keys_combine; [apply index_keys_plain|].
      now rewrite length_index_keys, length_map.
    + apply (Forall_combine_snd (fun x => serialize x = inr x)), Forall_forall.
      intros x Hx. apply in_map_iff in Hx as [c [<- _]]. reflexivity.
  - rewrite serialize_unfold, Hint, E. reflexivity.
  - rewrite serialize_unfold, Hint, E. cbn [truthy entries].
    rewrite collect_try_map, try_map_entries_combine, length_index_keys.
    rewrite firstn_all.
    destruct (try_map serialize xs) as [e|ys] eqn:Hys; [reflexivity|].
    rewrite from_entries_plain; [reflexivity|].
    rewrite obj_keys_combine; [apply index_keys_plain|].
    rewrite length_index_keys. apply try_map_inr in Hys.
    symmetry. exact (Forall2_same_length _ _ _ Hys).
Qed.

Lemma serialize_odd_properties_witness :
  serialize (VObj [("id", VStr "n1");
                   ("properties", VArr [VInt (Int64.fromBits 3 0); VUndefined])])
  = inr (VObj [("0", VNum (Number.of_Z 3)); ("1", VNull)]).
Proof.
  exact (serialize_odd_properties
           [("id", VStr "n1");
            ("properties", VArr [VInt (Int64.fromBits 3 0); VUndefined])]
           (VArr [VInt (Int64.fromBits 3 0); VUndefined]) eq_refl eq_refl).
Defined.

(* ================================================================== *)
(** * Prototypes *)
(* ================================================================== *)



(** Filling an object from entries with distinct keys: the entry named
    [__proto__], when there is one and its value is [null] or an object,
    gives the prototype; the other entries are the own properties, in
    order. *)
Lemma fold_assign_distinct (es : list (string * value)) :
  forall acc : object,
    distinct (obj_keys es) = true ->
    forallb (fun k => negb (includes (obj_keys (own acc)) k)) (obj_keys es) = true ->
    fold_left (fun out kx => assign out (fst kx) (snd kx)) es acc
    = mkObject
        match obj_get es "__proto__" with
        | Some x =>
            match as_prototype x with
            | Some q => Some q
            | None => prototype_of acc
            end
        | None => prototype_of acc
        end
        (own acc
         ++ filter (fun kx => negb (String.eqb (fst kx) "__proto__")) es).
Proof.
  induction es as [|[k x] es IH]; intros acc Hd Hf.
  - cbn. rewrite app_nil_r. now destruct acc.
  - cbn [obj_keys map fst distinct forallb] in Hd, Hf.
    fold (obj_keys es) in Hd, Hf.
    apply andb_true_iff in Hd as [Hk Hd].
    apply andb_true_iff in Hf as [Hka Hf].
    apply negb_true_iff in Hk, Hka.
    cbn [fold_left fst snd obj_get filter]. unfold assign.
    destruct (String.eqb_spec k "__proto__") as [->|Hne]; cbn [negb].
    + assert (Hnone : obj_get es "__proto__" = None).
      { clear -Hk. induction es as [|[k' y] es IH]; [reflexivity|].
        cbn [obj_keys map fst] in Hk. rewrite includes_cons in Hk.
        apply orb_false_iff in Hk as [Hk' Hk]. cbn [obj_get].
        rewrite String.eqb_sym, Hk'. now apply IH. }
      destruct (as_prototype x) as [q|]; rewrite IH; cbn [prototype_of own];
        try assumption; now rewrite Hnone.
    + rewrite obj_set_fresh by assumption.
      rewrite IH; cbn [prototype_of own];
        [now rewrite <- app_assoc | assumption |].
      apply forallb_forall. intros k' Hin.
      rewrite includes_snoc.
      rewrite forallb_forall in Hf. specialize (Hf _ Hin).
      apply negb_true_iff in Hf. rewrite Hf. simpl.
      apply negb_true_iff. destruct (String.eqb_spec k' k) as [->|]; [|reflexivity].
      exfalso. apply not_true_iff_false in Hk. apply Hk.
      apply existsb_exists. exists k. split; [assumption | apply String.eqb_refl].
Qed.

(** X19: what an entry named [__proto__] does to the result.  For an
    object with distinct keys that is no entity and nothing
    [neo4j.isInt] accepts, every entry is serialized, and the result
    holds all of them in order but that one: its serialized value, when
    it is [null] or an object, is the prototype of the result instead,
    where a later pass of [serialize] finds its members; any other value
    is lost. *)
Theorem serialize_proto_entry fields :
  distinct (obj_keys fields) = true ->
  truthy (get_prop (VObj fields) "properties") = false ->
  isInt (VObj fields) = false ->
  forall result,
    serialize (VObj fields) = inr result
    <-> exists out,
          obj_keys out = obj_keys fields
          /\ Forall2 (fun kv kx => serialize (snd kv) = inr (snd kx)) fields out
          /\ let rest :=
               filter (fun kx => negb (String.eqb (fst kx) "__proto__")) out in
             result = match obj_get out "__proto__" with
                      | Some VNull => VHeir ProtoNull rest
                      | Some (VArr xs) => VHeir (ProtoArr xs) rest
                      | Some (VObj fs) => VHeir (ProtoObj fs) rest
                      | Some (VHeir q fs) => VHeir (ProtoHeir q fs) rest
                      | _ => VObj rest
                      end.
Proof.
  intros Hd Hp Hint result. rewrite serialize_unfold, Hp, Hint.
  cbn [entries]. rewrite collect_try_map.
  assert (Hfill : forall out,
             obj_keys out = obj_keys fields ->
             from_entries out
             = match obj_get out "__proto__" with
               | Some VNull =>
                   VHeir ProtoNull
                     (filter (fun kx => negb (String.eqb (fst kx) "__proto__")) out)
               | Some (VArr xs) =>
                   VHeir (ProtoArr xs)
                     (filter (fun kx => negb (String.eqb (fst kx) "__proto__")) out)
               | Some (VObj fs) =>
                   VHeir (ProtoObj fs)
                     (filter (fun kx => negb (String.eqb (fst kx) "__proto__")) out)
               | Some (VHeir q fs) =>
                   VHeir (ProtoHeir q fs)
                     (filter (fun kx => negb (String.eqb (fst kx) "__proto__")) out)
               | _ => VObj (filter (fun kx => negb (String.eqb (fst kx) "__proto__")) out)
               end).
  { intros out Hk. unfold from_entries.
    rewrite fold_assign_distinct; [| now rewrite Hk | apply forallb_forall; reflexivity].
    cbn [empty_object own prototype_of app]. unfold object_value.
    cbn [prototype_of own].
    destruct (obj_get out "__proto__") as [x|]; [|reflexivity].
    destruct x; reflexivity. }
  split.
  - destruct (try_map (entry_with serialize) fields) as [e|out] eqn:Hout;
      [discriminate|].
    intros E. injection E as <-. apply entries_serialized in Hout as [Hk Hf].
    exists out. split; [exact Hk|]. split; [exact Hf|]. now apply Hfill.
  - intros (out & Hk & Hf & ->).
    rewrite (proj2 (entries_serialized fields out) (conj Hk Hf)).
    now rewrite Hfill.
Qed.

Lemma serialize_proto_entry_witness :
  serialize (VObj [("__proto__", VObj [("properties", VObj [("c", VStr "z")])]);
                   ("b", VInt (Int64.fromBits 2 0))])
  = inr (VHeir (ProtoObj [("c", VStr "z")]) [("b", VNum (Number.of_Z 2))]).
Proof.
  apply (serialize_proto_entry
           [("__proto__", VObj [("properties", VObj [("c", VStr "z")])]);
            ("b", VInt (Int64.fromBits 2 0))]); try reflexivity.
  exists [("__proto__", VObj [("c", VStr "z")]); ("b", VNum (Number.of_Z 2))].
  split; [reflexivity|]. split; [repeat constructor | reflexivity].
Defined.


(* ================================================================== *)
(** * Further properties of the handlers *)
(* ================================================================== *)

(** X8: [POST /query] sends exactly one response on every path, with
    status 200 or 400; it calls the driver for a session, a run and a
    close when [cypher] is truthy and not at all otherwise; the query
    runs with the request's [params], or with [{}] when they are absent
    or falsy; and the only error that can leave the handler is one thrown
    by [session.close()]. *)
Theorem post_query_answers_once env db req_body w :
  let cypher := get_prop req_body "cypher" in
  let params := get_prop req_body "params" in
  let out := post_query env db req_body w in
  (exists resp, sent (fst out) = sent w ++ [resp]
                /\ (status resp = 200 \/ status resp = 400))
  /\ calls (fst out)
     = (if truthy cypher
        then calls w ++ [Session (NEO4J_DB env);
                         Run cypher (if truthy params then params else VObj []);
                         Close]
        else calls w)
  /\ (snd out = inr tt
      \/ exists e, truthy cypher = true /\ close_outcome db = Some e
                   /\ snd out = inl e).
Proof.
  intros cypher params out. subst out.
  destruct (truthy cypher) eqn:Hc; subst cypher.
  - rewrite post_query_truthy by exact Hc. fold params.
    destruct (try_outcome db _ _) as [err|[columns data]]; cbn [fst snd calls sent];
      (split; [eexists; split; [reflexivity | cbn [status]; auto]|]);
      (split; [reflexivity|]);
      destruct (close_outcome db) as [e|]; eauto.
  - rewrite post_query_falsy by exact Hc. cbn [fst snd calls sent].
    split; [eexists; split; [reflexivity | cbn [status]; auto]|].
    split; [reflexivity | now left].
Qed.

Lemma try_map_succeeds {A B} (f : A -> js_error + B) xs :
  (exists ys, try_map f xs = inr ys)
  <-> Forall (fun x => exists y, f x = inr y) xs.
Proof.
  split.
  - intros [ys H]. apply try_map_inr in H.
    induction H as [|x y xs ys Hx _ IH]; constructor; eauto.
  - induction 1 as [|x xs [y Hx] _ [ys IH]]; cbn [try_map]; [eauto|].
    rewrite Hx, IH. eauto.
Qed.

Lemma Forall_equiv {A} (P Q : A -> Prop) xs :
  (forall x, P x <-> Q x) -> Forall P xs <-> Forall Q xs.
Proof.
  intros H. split; intros HF; (eapply Forall_impl; [|exact HF]); intros x;
    apply H.
Qed.

(** A row is made exactly when every column is found and serialized. *)
Lemma row_of_succeeds columns rec :
  (exists row, row_of columns rec = inr row)
  <-> Forall (fun k => exists v x, Rec.get rec k = inr v /\ serialize v = inr x)
             columns.
Proof.
  unfold row_of. rewrite try_map_succeeds. apply Forall_equiv. intros k.
  destruct (Rec.get rec k) as [e|v]; split.
  - intros [y H]. discriminate H.
  - intros (v & x & H & _). discriminate H.
  - intros [y H]. eauto.
  - intros (v' & x & H & Hx). injection H as <-. eauto.
Qed.

Lemma data_of_succeeds columns records :
  (exists data, data_of columns records = inr data)
  <-> Forall (fun rec =>
                Forall (fun k => exists v x, Rec.get rec k = inr v
                                             /\ serialize v = inr x)
                       columns)
             records.
Proof.
  unfold data_of. rewrite try_map_succeeds. apply Forall_equiv. intros rec.
  rewrite <- row_of_succeeds.
  destruct (row_of columns rec) as [e|row]; split.
  - intros [y H]. discriminate H.
  - intros [row H]. discriminate H.
  - eauto.
  - eauto.
Qed.

(** X9: [POST /query] answers with status 200 exactly when [cypher] is
    truthy, the run succeeds, [rec.get] returns a value for every column
    of the first record in every record, and every such value can be
    serialized. *)
Theorem post_query_ok_iff env db req_body w :
  let cypher := get_prop req_body "cypher" in
  let params := js_or (get_prop req_body "params") (VObj []) in
  (exists b, sent (fst (post_query env db req_body w))
             = sent w ++ [mkResponse 200 b])
  <-> truthy cypher = true
      /\ exists records,
           run_outcome db cypher params = inr records
           /\ Forall (fun rec =>
                        Forall (fun k => exists v x, Rec.get rec k = inr v
                                                     /\ serialize v = inr x)
                               (columns_of records))
                     records.
Proof.
  intros cypher params. split.
  - intros [b Hb]. destruct (truthy cypher) eqn:Hc; subst cypher.
    + split; [reflexivity|].
      rewrite post_query_truthy in Hb by exact Hc. fold params in Hb.
      unfold try_outcome in Hb.
      destruct (run_outcome db _ params) as [err|records] eqn:Hrun.
      * cbn [fst sent] in Hb. apply app_inv_head in Hb. discriminate Hb.
      * exists records. split; [reflexivity|]. apply data_of_succeeds.
        destruct (data_of _ records) as [err|data] eqn:Hdata; [|eauto].
        cbn [fst sent] in Hb. apply app_inv_head in Hb. discriminate Hb.
    + rewrite post_query_falsy in Hb by exact Hc.
      cbn [fst sent] in Hb. apply app_inv_head in Hb. discriminate Hb.
  - intros [Hc (records & Hrun & Hall)]. subst cypher.
    apply data_of_succeeds in Hall as [data Hdata].
    rewrite post_query_truthy by exact Hc. fold params.
    unfold try_outcome. rewrite Hrun, Hdata. eexists. reflexivity.
Qed.




Lemma get_uniform pre k suf fpre x fsuf :
  distinct (pre ++ k :: suf) = true ->
  k <> "__proto__" ->
  List.length fpre = List.length pre ->
  Rec.get (Rec.mkRecord (pre ++ k :: suf) (fpre ++ x :: fsuf)) k = inr x.
Proof.
  intros Hd Hk Hl. unfold Rec.get, Rec._fieldLookup. cbn [Rec.keys Rec._fields].
  apply String.eqb_neq in Hk. rewrite Hk, (field_index_distinct _ _ _ Hd).
  now rewrite nth_error_app2, <- Hl, Nat.sub_diag by lia.
Qed.

Lemma row_of_uniform_aux suf :
  forall pre fpre fsuf,
    List.length fpre = List.length pre ->
    List.length fsuf = List.length suf ->
    distinct (pre ++ suf) = true ->
    includes suf "__proto__" = false ->
    try_map (fun k => match Rec.get (Rec.mkRecord (pre ++ suf) (fpre ++ fsuf)) k with
                      | inl e => inl e
                      | inr x => serialize x
                      end) suf
    = try_map serialize fsuf.
Proof.
  induction suf as [|k suf IH]; intros pre fpre [|x fsuf] Hpre Hsuf Hd Hp;
    try discriminate Hsuf; [reflexivity|].
  rewrite includes_cons in Hp. apply orb_false_iff in Hp as [Hk Hp].
  cbn [try_map]. rewrite get_uniform; [| exact Hd | | exact Hpre].
  2:{ intros ->. discriminate Hk. }
  replace (pre ++ k :: suf) with ((pre ++ [k]) ++ suf)
    by (now rewrite <- app_assoc).
  replace (fpre ++ x :: fsuf) with ((fpre ++ [x]) ++ fsuf)
    by (now rewrite <- app_assoc).
  rewrite IH; [reflexivity | | | | exact Hp].
  - rewrite !length_app. simpl. lia.
  - simpl in Hsuf. lia.
  - now rewrite <- app_assoc.
Qed.

(** On a record with the result's column names, pairwise distinct and
    none [__proto__], and one field per column, a row is the record's
    fields, serialized position by position. *)
Lemma row_of_uniform columns rec :
  Rec.keys rec = columns ->
  List.length (Rec._fields rec) = List.length columns ->
  distinct columns = true ->
  includes columns "__proto__" = false ->
  row_of columns rec = try_map serialize (Rec._fields rec).
Proof.
  intros Hk Hl Hd Hp. destruct rec as [ks fs]. simpl in *. subst ks.
  exact (row_of_uniform_aux columns [] [] fs eq_refl Hl Hd Hp).
Qed.

Lemma data_of_uniform columns records rows :
  distinct columns = true ->
  includes columns "__proto__" = false ->
  Forall (fun rec => Rec.keys rec = columns
                     /\ List.length (Rec._fields rec) = List.length columns)
         records ->
  Forall2 (fun rec row => try_map serialize (Rec._fields rec) = inr row)
          records rows ->
  data_of columns records
  = inr (map (fun row => VObj [("row", VArr row)]) rows).
Proof.
  intros Hd Hp Hu Hrows. unfold data_of.
  induction Hrows as [|rec row records rows Hrow _ IH]; [reflexivity|].
  inversion Hu as [|? ? [Hk Hl] Hu']; subst.
  cbn [try_map map]. rewrite (row_of_uniform _ _ eq_refl Hl Hd Hp), Hrow.
  now rewrite (IH Hu').
Qed.

(** X11: when the records of the result all carry the first record's
    column names, pairwise distinct and none of them [__proto__], with
    one field per column, and every field can be serialized, the answer
    is status 200 and every row is the record's fields serialized
    position by position. *)
Theorem post_query_rows_positional env db req_body records rows w :
  truthy (get_prop req_body "cypher") = true ->
  run_outcome db (get_prop req_body "cypher")
              (js_or (get_prop req_body "params") (VObj [])) = inr records ->
  distinct (columns_of records) = true ->
  includes (columns_of records) "__proto__" = false ->
  Forall (fun rec => Rec.keys rec = columns_of records
                     /\ List.length (Rec._fields rec)
                        = List.length (columns_of records))
         records ->
  Forall2 (fun rec row => try_map serialize (Rec._fields rec) = inr row)
          records rows ->
  sent (fst (post_query env db req_body w))
  = sent w ++
      [mkResponse 200
         (VObj [("results",
                 VArr [VObj [("columns", VArr (map VStr (columns_of records)));
                             ("data",
                              VArr (map (fun row => VObj [("row", VArr row)])
                                        rows))]]);
                ("errors", VArr [])])].
Proof.
  intros Hc Hrun Hd Hp Hu Hrows.
  pose proof (data_of_uniform _ _ _ Hd Hp Hu Hrows) as Hdata.
  rewrite post_query_truthy by exact Hc. unfold try_outcome.
  rewrite Hrun, Hdata. reflexivity.
Qed.

Lemma post_query_rows_positional_witness :
  sent (fst (post_query no_env db_two_records a_query world0))
  = [two_records_response].
Proof.
  apply (post_query_rows_positional no_env db_two_records a_query two_records
           [[VNum (Number.of_Z 1); VStr "x"];
            [VNull; VArr [VNum (Number.of_Z 2)]]] world0);
    try reflexivity; repeat constructor.
Defined.

(* ------------------------------------------------------------------ *)
(** ** Values that cannot be serialized *)




(** X12: [GET /health] and [GET /debug/driver] send exactly one
    response, [{ ok: true }] with status 200 when the driver verifies its
    connectivity and [{ ok: false, error }] with status 502 and the
    error's message when it does not; neither opens a session and
    neither lets the error escape. *)
Theorem connectivity_endpoints found w :
  get_health found w
  = (mkWorld (calls w) (console w)
             (sent w ++
                [match found with
                 | None => mkResponse 200 (VObj [("ok", VBool true)])
                 | Some e =>
                     mkResponse 502 (VObj [("ok", VBool false);
                                           ("error", VStr (message e))])
                 end]),
     inr tt)
  /\ get_debug_driver found w = get_health found w.
Proof. split; [destruct found; reflexivity | reflexivity]. Qed.




(* ================================================================== *)
(** * The configured allow-list *)
(* ================================================================== *)

Lemma split_no_sep sep s :
  Forall (fun piece => contains sep piece = false) (split sep s).
Proof.
  induction s as [|c s IH]; cbn [split]; [now repeat constructor|].
  destruct (Ascii.eqb c sep) eqn:Hc; [now constructor|].
  destruct (split sep s) as [|w ws]; [now repeat constructor; cbn; rewrite Hc|].
  inversion IH as [|? ? Hw Hws]; subst. constructor; [|exact Hws].
  cbn [contains]. now rewrite Hc, Hw.
Qed.

(* ------------------------------------------------------------------ *)
(** ** Trimming *)

Lemma length_lt_wf (P : string -> Prop) :
  (forall s, (forall t, (String.length t < String.length s)%nat -> P t) -> P s) ->
  forall s, P s.
Proof.
  intros H s.
  assert (Hn : forall n t, (String.length t < n)%nat -> P t).
  { induction n as [|n IH]; intros t Ht; [lia|].
    apply H. intros t' Ht'. apply IH. lia. }
  apply (Hn (S (String.length s))). lia.
Qed.

(** The ways [trimStart] goes: it drops a white space character of one,
    two or three bytes and goes on, or it stops. *)
Lemma trim_start_ind (P : string -> string -> Prop) :
  P "" "" ->
  (forall a s1,
      is_space1 a = true -> P s1 (trim_start s1) ->
      P (String a s1) (trim_start s1)) ->
  (forall a b s2,
      is_space1 a = false -> is_space2 a b = true -> P s2 (trim_start s2) ->
      P (String a (String b s2)) (trim_start s2)) ->
  (forall a b c s3,
      is_space1 a = false -> is_space2 a b = false ->
      is_space3 a b c = true -> P s3 (trim_start s3) ->
      P (String a (String b (String c s3))) (trim_start s3)) ->
  (forall s, trim_start s = s -> s <> "" -> P s s) ->
  forall s, P s (trim_start s).
Proof.
  intros H0 H1 H2 H3 Hstop. apply length_lt_wf. intros s IH.
  destruct s as [|a s1]; [exact H0|]. cbn [trim_start].
  destruct (is_space1 a) eqn:E1.
  { apply H1; [exact E1|]. apply IH. cbn [String.length]. lia. }
  destruct s1 as [|b s2].
  { apply Hstop; [|discriminate]. cbn [trim_start]. now rewrite E1. }
  destruct (is_space2 a b) eqn:E2.
  { apply H2; try assumption. apply IH. cbn [String.length]. lia. }
  destruct s2 as [|c s3].
  { apply Hstop; [|discriminate]. cbn [trim_start]. now rewrite E1, E2. }
  destruct (is_space3 a b c) eqn:E3.
  { apply H3; try assumption. apply IH. cbn [String.length]. lia. }
  apply Hstop; [|discriminate]. cbn [trim_start]. now rewrite E1, E2, E3.
Qed.

Lemma trim_start_idem s : trim_start (trim_start s) = trim_start s.
Proof.
  apply (trim_start_ind (fun _ t => trim_start t = t)); auto.
Qed.

Lemma trim_start_length s :
  (String.length (trim_start s) <= String.length s)%nat.
Proof.
  apply (trim_start_ind
           (fun s t => (String.length t <= String.length s)%nat));
    intros; cbn [String.length]; lia.
Qed.

Lemma contains_trim_start c s :
  contains c s = false -> contains c (trim_start s) = false.
Proof.
  apply (trim_start_ind
           (fun s t => contains c s = false -> contains c t = false)); auto.
  - intros a s1 _ IH H. cbn [contains] in H.
    apply orb_false_iff in H as [_ H]. auto.
  - intros a b s2 _ _ IH H. cbn [contains] in H.
    apply orb_false_iff in H as [_ H]. apply orb_false_iff in H as [_ H]. auto.
  - intros a b d s3 _ _ _ IH H. cbn [contains] in H.
    apply orb_false_iff in H as [_ H]. apply orb_false_iff in H as [_ H].
    apply orb_false_iff in H as [_ H]. auto.
Qed.

(** White space in front of a string is dropped with it. *)
Lemma trim_start_app s t :
  blank s = true -> trim_start (s ++ t) = trim_start t.
Proof.
  unfold blank. rewrite String.eqb_eq.
  apply (trim_start_ind
           (fun s u => u = "" -> trim_start (s ++ t) = trim_start t)).
  - reflexivity.
  - intros a s1 E1 IH H. cbn [append trim_start]. rewrite E1. auto.
  - intros a b s2 E1 E2 IH H. cbn [append trim_start]. rewrite E1, E2. auto.
  - intros a b c s3 E1 E2 E3 IH H. cbn [append trim_start].
    rewrite E1, E2, E3. auto.
  - intros s0 _ Hne H. now elim Hne.
Qed.

(** A string without white space in front keeps none in front when it is
    cut short. *)
Lemma trim_start_prefix u t :
  trim_start (u ++ t) = (u ++ t)%string -> trim_start u = u.
Proof.
  intros H.
  assert (Hlen : forall v, (String.length (trim_start v) <= String.length v)%nat)
    by apply trim_start_length.
  destruct u as [|a u1]; [reflexivity|].
  cbn [append trim_start] in *.
  destruct (is_space1 a).
  { specialize (Hlen (u1 ++ t)%string). rewrite H in Hlen.
    cbn [String.length] in Hlen. lia. }
  destruct u1 as [|b u2]; [reflexivity|]. cbn [append] in H.
  destruct (is_space2 a b).
  { specialize (Hlen (u2 ++ t)%string). rewrite H in Hlen.
    cbn [String.length] in Hlen. lia. }
  destruct u2 as [|c u3]; [reflexivity|]. cbn [append] in H.
  destruct (is_space3 a b c); [|reflexivity].
  specialize (Hlen (u3 ++ t)%string). rewrite H in Hlen.
  cbn [String.length] in Hlen. lia.
Qed.

(** What [trimEnd] drops is white space. *)
Lemma trim_end_split s :
  exists t, s = (trim_end s ++ t)%string /\ blank t = true.
Proof.
  induction s as [|c s IH]; [exists ""; split; reflexivity|].
  cbn [trim_end]. destruct (blank (String c s)) eqn:Hb.
  - exists (String c s). split; [reflexivity | exact Hb].
  - destruct IH as [t [E Ht]]. exists t. split; [|exact Ht].
    cbn [append]. now rewrite <- E.
Qed.

Lemma contains_trim_end c s :
  contains c s = false -> contains c (trim_end s) = false.
Proof.
  induction s as [|d s IH]; [auto|]. cbn [trim_end contains].
  intros H. apply orb_false_iff in H as [Hd Hs].
  destruct (blank (String d s)); [reflexivity|].
  cbn [contains]. now rewrite Hd, IH.
Qed.

Lemma blank_app s t : blank s = true -> blank t = true -> blank (s ++ t) = true.
Proof.
  intros Hs Ht. unfold blank in *. now rewrite trim_start_app.
Qed.

Lemma trim_end_idem s : trim_end (trim_end s) = trim_end s.
Proof.
  induction s as [|c s IH]; [reflexivity|]. cbn [trim_end].
  destruct (blank (String c s)) eqn:Hb; [reflexivity|].
  cbn [trim_end]. rewrite IH.
  destruct (blank (String c (trim_end s))) eqn:Hb'; [|reflexivity].
  destruct (trim_end_split s) as [t [E Ht]].
  pose proof (blank_app _ _ Hb' Ht) as H. cbn [append] in H.
  rewrite <- E in H. congruence.
Qed.

Lemma trim_idem s : trim (trim s) = trim s.
Proof.
  unfold trim. destruct (trim_end_split (trim_start s)) as [t [E _]].
  assert (H : trim_start (trim_end (trim_start s)) = trim_end (trim_start s)).
  { apply (trim_start_prefix _ t). rewrite <- E. apply trim_start_idem. }
  rewrite H. apply trim_end_idem.
Qed.

(** X13: every entry of the allow-list is a non-empty piece of the
    configured string with the white space at both ends removed: it is
    not empty, trimming it again changes nothing, and it holds no
    comma. *)
Theorem allow_list_entries env o :
  In o (ORIGIN_ALLOW_LIST env) ->
  o <> "" /\ trim o = o /\ contains "," o = false.
Proof.
  unfold ORIGIN_ALLOW_LIST. rewrite filter_In, in_map_iff. cbn [truthy].
  rewrite negb_true_iff, String.eqb_neq.
  intros [[piece [<- Hin]] Hne]. split; [exact Hne|].
  split; [apply trim_idem|].
  apply contains_trim_end, contains_trim_start.
  pose proof (split_no_sep "," (env_or (env "ORIGIN_ALLOW_LIST")
                "https://nettedletters.org,https://tool.nettedletters.org")) as H.
  rewrite Forall_forall in H. exact (H _ Hin).
Qed.

Lemma allow_list_entries_witness :
  In "https://a.example" (ORIGIN_ALLOW_LIST env_nbsp)
  /\ trim "https://a.example" = "https://a.example"
  /\ contains "," "https://a.example" = false.
Proof.
  assert (Hin : In "https://a.example" (ORIGIN_ALLOW_LIST env_nbsp)).
  { left. reflexivity. }
  split; [exact Hin|].
  exact (proj2 (allow_list_entries env_nbsp "https://a.example" Hin)).
Defined.

(** X14: the two edges of the configuration.  An allow-list that is not
    set, or set to the empty string, is the two default origins.  One
    that is set to commas and white space only is empty, and then every
    request that declares an origin is refused. *)
Theorem allow_list_edges env :
  (env "ORIGIN_ALLOW_LIST" = None \/ env "ORIGIN_ALLOW_LIST" = Some "" ->
   ORIGIN_ALLOW_LIST env
   = ["https://nettedletters.org"; "https://tool.nettedletters.org"])
  /\ (forall cfg,
        env "ORIGIN_ALLOW_LIST" = Some cfg -> cfg <> "" ->
        Forall (fun piece => trim piece = "") (split "," cfg) ->
        ORIGIN_ALLOW_LIST env = []
        /\ forall o, o <> "" ->
                     origin_callback env (Some o)
                     = (Some (mkError None ("Not allowed by CORS: " ++ o)), false)).
Proof.
  split.
  - unfold ORIGIN_ALLOW_LIST. intros [-> | ->]; reflexivity.
  - intros cfg Hcfg Hne Hblank.
    assert (Hlist : ORIGIN_ALLOW_LIST env = []).
    { unfold ORIGIN_ALLOW_LIST. rewrite Hcfg. unfold env_or.
      apply String.eqb_neq in Hne. rewrite Hne.
      induction Hblank as [|piece pieces Hp _ IH]; [reflexivity|].
      cbn [map filter]. rewrite Hp. exact IH. }
    split; [exact Hlist|]. intros o Ho.
    unfold origin_callback. rewrite Hlist. cbn [origin_value truthy includes existsb].
    apply String.eqb_neq in Ho. now rewrite Ho.
Qed.

Lemma allow_list_edges_witness :
  ORIGIN_ALLOW_LIST no_env
  = ["https://nettedletters.org"; "https://tool.nettedletters.org"]
  /\ ORIGIN_ALLOW_LIST env_blank = []
  /\ origin_callback env_blank (Some "https://nettedletters.org")
     = (Some (mkError None "Not allowed by CORS: https://nettedletters.org"), false).
Proof.
  split; [exact (proj1 (allow_list_edges no_env) (or_introl eq_refl))|].
  assert (Hne : " , ," <> "") by discriminate.
  assert (Hblank : Forall (fun piece => trim piece = "") (split "," " , ,")).
  { repeat constructor. }
  destruct (proj2 (allow_list_edges env_blank) " , ," eq_refl Hne Hblank)
    as [Hlist Hall].
  split; [exact Hlist|].
  apply Hall. discriminate.
Defined.

(* ================================================================== *)
(** * What the probes report *)
(* ================================================================== *)

(** X15: the body each probe sends for a first event.  A connection
    reports success, and for TLS the handshake's [authorized] flag, its
    ALPN protocol, or [null] when that is falsy, and its cipher; a
    timeout reports the error ["timeout"]; a failure reports the
    socket's own error message. *)
Theorem probe_reports authorized alpn cipher msg :
  Probe.sent (Probe.after Probe.bolt [Probe.established])
  = [mkResponse 200 (VObj [("connect", VBool true)])]
  /\ Probe.sent (Probe.after Probe.bolt [Probe.idle])
     = [mkResponse 504 (VObj [("connect", VBool false); ("error", VStr "timeout")])]
  /\ Probe.sent (Probe.after Probe.bolt [Probe.failed msg])
     = [mkResponse 502 (VObj [("connect", VBool false); ("error", VStr msg)])]
  /\ Probe.sent (Probe.after (Probe.tls authorized alpn cipher) [Probe.established])
     = [mkResponse 200
          (VObj [("ok", VBool true);
                 ("info", VObj [("authorized", VBool authorized);
                                ("alpnProtocol", if truthy alpn then alpn else VNull);
                                ("cipher", cipher)])])]
  /\ Probe.sent (Probe.after (Probe.tls authorized alpn cipher) [Probe.idle])
     = [mkResponse 504 (VObj [("ok", VBool false); ("error", VStr "timeout")])]
  /\ Probe.sent (Probe.after (Probe.tls authorized alpn cipher) [Probe.failed msg])
     = [mkResponse 502 (VObj [("ok", VBool false); ("error", VStr msg)])].
Proof. repeat split; reflexivity. Qed.
